(** * Gravity proxy: stream reassembly, message translation, credential rotation

  A shallow embedding of the three stateful pieces of the proxy
  ([api_client.py], [utils.py], [token_manager.py]) together with the
  properties its specification states about them. *)

From Stdlib Require Import ZArith QArith Qround Lia Lqa.
From stdpp Require Import base list strings pretty gmap.

Set Warnings "-register-all".

(** ** Python values *)

Module Py.

(** The exceptions the modelled code can raise and does not catch. *)
Inductive exception : Type :=
| AttributeError
| IndexError
| KeyError
| TypeError.

Inductive result (A : Type) : Type :=
| Ok (a : A)
| Raise (e : exception).
Arguments Ok {A} a.
Arguments Raise {A} e.

Definition bind {A B} (r : result A) (k : A -> result B) : result B :=
  match r with
  | Ok a => k a
  | Raise e => Raise e
  end.

(** What [json.loads] returns: [None], [bool], [int], [str], [list] and
    [dict] (a [dict] keeps its insertion order; keys are strings).
    Numbers are the integers; decimal literals are outside the model. *)
Inductive json : Type :=
| JNull
| JBool (b : bool)
| JInt (z : Z)
| JStr (s : string)
| JArr (l : list json)
| JObj (kv : list (string * json)).

(** [bool(v)] *)
Definition truthy (v : json) : bool :=
  match v with
  | JNull => false
  | JBool b => b
  | JInt z => negb (z =? 0)%Z
  | JStr s => negb (String.eqb s "")
  | JArr l => match l with [] => false | _ => true end
  | JObj kv => match kv with [] => false | _ => true end
  end.

Fixpoint dict_lookup (k : string) (kv : list (string * json)) : option json :=
  match kv with
  | [] => None
  | (k', v) :: kv' => if String.eqb k k' then Some v else dict_lookup k kv'
  end.

(** [k in v] for a [dict] *)
Definition dict_has (k : string) (kv : list (string * json)) : bool :=
  match dict_lookup k kv with Some _ => true | None => false end.

(** [v.get(k, dflt)]: only a [dict] has the method. *)
Definition get (v : json) (k : string) (dflt : json) : result json :=
  match v with
  | JObj kv => Ok (default dflt (dict_lookup k kv))
  | _ => Raise AttributeError
  end.

(** [v[0]] *)
Definition item0 (v : json) : result json :=
  match v with
  | JArr (x :: _) => Ok x
  | JArr [] => Raise IndexError
  | JObj _ => Raise KeyError
  | JStr (String c _) => Ok (JStr (String c ""))
  | JStr "" => Raise IndexError
  | JNull | JBool _ | JInt _ => Raise TypeError
  end.

Fixpoint chars (s : string) : list json :=
  match s with
  | "" => []
  | String c s' => JStr (String c "") :: chars s'
  end.

(** The items [for x in v] visits. *)
Definition iter (v : json) : result (list json) :=
  match v with
  | JArr l => Ok l
  | JObj kv => Ok (map (fun p => JStr (fst p)) kv)
  | JStr s => Ok (chars s)
  | JNull | JBool _ | JInt _ => Raise TypeError
  end.

(** [s[n:]] *)
Fixpoint str_drop (n : nat) (s : string) : string :=
  match n, s with
  | O, _ => s
  | S n', String _ s' => str_drop n' s'
  | S _, "" => ""
  end.

(** [s[:n]] *)
Fixpoint str_take (n : nat) (s : string) : string :=
  match n, s with
  | O, _ => ""
  | S n', String c s' => String c (str_take n' s')
  | S _, "" => ""
  end.

Definition LF : string := String (Ascii.ascii_of_nat 10) "".

(** *** A reader for a fragment of JSON

    [json.loads] itself is a parameter of the development.  To run the
    modelled code on concrete text, [loads_subset] reads the fragment of
    JSON without decimal literals and without unicode escapes, and rejects
    everything else. *)

Definition dquote : Ascii.ascii := Ascii.ascii_of_nat 34.

Definition is_ws (c : Ascii.ascii) : bool :=
  let n := Ascii.nat_of_ascii c in
  Nat.eqb n 32 || Nat.eqb n 9 || Nat.eqb n 10 || Nat.eqb n 13.

Definition is_digit (c : Ascii.ascii) : bool :=
  let n := Ascii.nat_of_ascii c in
  Nat.leb 48 n && Nat.leb n 57.

Fixpoint skip_ws (s : string) : string :=
  match s with
  | String c s' => if is_ws c then skip_ws s' else s
  | "" => ""
  end.

Fixpoint read_digits (acc : Z) (s : string) : Z * string :=
  match s with
  | String c s' =>
      if is_digit c
      then read_digits (10 * acc + Z.of_nat (Ascii.nat_of_ascii c - 48)) s'
      else (acc, s)
  | "" => (acc, "")
  end.

Definition unescape (c : Ascii.ascii) : option Ascii.ascii :=
  let n := Ascii.nat_of_ascii c in
  if Nat.eqb n 34 then Some c
  else if Nat.eqb n 92 then Some c
  else if Nat.eqb n 47 then Some c
  else if Nat.eqb n 110 then Some (Ascii.ascii_of_nat 10)
  else if Nat.eqb n 116 then Some (Ascii.ascii_of_nat 9)
  else if Nat.eqb n 114 then Some (Ascii.ascii_of_nat 13)
  else if Nat.eqb n 98 then Some (Ascii.ascii_of_nat 8)
  else if Nat.eqb n 102 then Some (Ascii.ascii_of_nat 12)
  else None.

(** The text after an opening quote, up to the closing one. *)
Fixpoint read_string (s : string) : option (string * string) :=
  match s with
  | "" => None
  | String c s' =>
      let n := Ascii.nat_of_ascii c in
      if Nat.eqb n 34 then Some ("", s')
      else if Nat.eqb n 92 then
        match s' with
        | String e s'' =>
            match unescape e, read_string s'' with
            | Some c', Some (str, rest) => Some (String c' str, rest)
            | _, _ => None
            end
        | "" => None
        end
      else if Nat.ltb n 32 then None
      else
        match read_string s' with
        | Some (str, rest) => Some (String c str, rest)
        | None => None
        end
  end.

(** A number: only an integer literal not followed by a fraction or an
    exponent is read. *)
Definition read_int (s : string) : option (json * string) :=
  let '(neg, s1) :=
    match s with
    | String c s' => if Nat.eqb (Ascii.nat_of_ascii c) 45 then (true, s') else (false, s)
    | "" => (false, s)
    end in
  match s1 with
  | String d s2 =>
      if is_digit d then
        let '(z, rest) := read_digits 0 s1 in
        let leading_zero :=
          Nat.eqb (Ascii.nat_of_ascii d) 48 &&
          match s2 with String d2 _ => is_digit d2 | "" => false end in
        let more :=
          match rest with
          | String c _ =>
              let n := Ascii.nat_of_ascii c in
              Nat.eqb n 46 || Nat.eqb n 101 || Nat.eqb n 69
          | "" => false
          end in
        if leading_zero || more then None
        else Some (JInt (if neg then - z else z)%Z, rest)
      else None
  | "" => None
  end.

(** [d[k] = v] *)
Fixpoint dict_set (k : string) (v : json) (kv : list (string * json)) : list (string * json) :=
  match kv with
  | [] => [(k, v)]
  | (k', v') :: kv' =>
      if String.eqb k k' then (k, v) :: kv' else (k', v') :: dict_set k v kv'
  end.

Definition starts_with_char (n : nat) (s : string) : option string :=
  match s with
  | String c s' => if Nat.eqb (Ascii.nat_of_ascii c) n then Some s' else None
  | "" => None
  end.

Fixpoint read_value (fuel : nat) (s : string) : option (json * string) :=
  match fuel with
  | O => None
  | S fuel' =>
      let s := skip_ws s in
      if String.prefix "null" s then Some (JNull, str_drop 4 s)
      else if String.prefix "true" s then Some (JBool true, str_drop 4 s)
      else if String.prefix "false" s then Some (JBool false, str_drop 5 s)
      else
        match s with
        | "" => None
        | String c s' =>
            let n := Ascii.nat_of_ascii c in
            if Nat.eqb n 34 then
              match read_string s' with
              | Some (str, rest) => Some (JStr str, rest)
              | None => None
              end
            else if Nat.eqb n 91 then
              match starts_with_char 93 (skip_ws s') with
              | Some rest => Some (JArr [], rest)
              | None =>
                  match read_elements fuel' s' with
                  | Some (l, rest) => Some (JArr l, rest)
                  | None => None
                  end
              end
            else if Nat.eqb n 123 then
              match starts_with_char 125 (skip_ws s') with
              | Some rest => Some (JObj [], rest)
              | None =>
                  match read_members fuel' [] s' with
                  | Some (kv, rest) => Some (JObj kv, rest)
                  | None => None
                  end
              end
            else read_int s
        end
  end
with read_elements (fuel : nat) (s : string) : option (list json * string) :=
  match fuel with
  | O => None
  | S fuel' =>
      match read_value fuel' s with
      | Some (v, rest) =>
          let rest := skip_ws rest in
          match starts_with_char 93 rest with
          | Some rest' => Some ([v], rest')
          | None =>
              match starts_with_char 44 rest with
              | Some rest' =>
                  match read_elements fuel' rest' with
                  | Some (l, rest'') => Some (v :: l, rest'')
                  | None => None
                  end
              | None => None
              end
          end
      | None => None
      end
  end
with read_members (fuel : nat) (acc : list (string * json)) (s : string)
  : option (list (string * json) * string) :=
  match fuel with
  | O => None
  | S fuel' =>
      match starts_with_char 34 (skip_ws s) with
      | Some s1 =>
          match read_string s1 with
          | Some (k, s2) =>
              match starts_with_char 58 (skip_ws s2) with
              | Some s3 =>
                  match read_value fuel' s3 with
                  | Some (v, rest) =>
                      let rest := skip_ws rest in
                      let acc := dict_set k v acc in
                      match starts_with_char 125 rest with
                      | Some rest' => Some (acc, rest')
                      | None =>
                          match starts_with_char 44 rest with
                          | Some rest' => read_members fuel' acc rest'
                          | None => None
                          end
                      end
                  | None => None
                  end
              | None => None
              end
          | None => None
          end
      | None => None
      end
  end.

Definition loads_subset (s : string) : option json :=
  match read_value (2 * String.length s + 2) s with
  | Some (v, rest) => if String.eqb (skip_ws rest) "" then Some v else None
  | None => None
  end.

(** Concrete JSON text is written with apostrophes in place of the
    double quotes; [dq] puts the double quotes back. *)
Fixpoint dq (s : string) : string :=
  match s with
  | "" => ""
  | String c s' =>
      String (if Nat.eqb (Ascii.nat_of_ascii c) 39 then dquote else c) (dq s')
  end.

(** *** A writer for the same fragment

    [dumps_subset] writes a value the way [json.dumps] does with its
    default separators. *)

Definition hex_digit (n : nat) : Ascii.ascii :=
  Ascii.ascii_of_nat (if Nat.ltb n 10 then 48 + n else 87 + n).

Definition escape_char (c : Ascii.ascii) : string :=
  let n := Ascii.nat_of_ascii c in
  let bs := Ascii.ascii_of_nat 92 in
  if Nat.eqb n 34 then String bs (String dquote "")
  else if Nat.eqb n 92 then String bs (String bs "")
  else if Nat.eqb n 10 then String bs "n"
  else if Nat.eqb n 13 then String bs "r"
  else if Nat.eqb n 9 then String bs "t"
  else if Nat.eqb n 8 then String bs "b"
  else if Nat.eqb n 12 then String bs "f"
  else if Nat.ltb n 32 || Nat.leb 127 n
  then String bs ("u00" +:+ String (hex_digit (n / 16)) (String (hex_digit (n mod 16)) ""))
  else String c "".

Fixpoint escape (s : string) : string :=
  match s with
  | "" => ""
  | String c s' => escape_char c +:+ escape s'
  end.

Definition quote (s : string) : string :=
  String dquote (escape s +:+ String dquote "").

Fixpoint dumps_subset (v : json) : string :=
  match v with
  | JNull => "null"
  | JBool true => "true"
  | JBool false => "false"
  | JInt z => pretty z
  | JStr s => quote s
  | JArr l =>
      "[" +:+
      (fix items (l : list json) : string :=
         match l with
         | [] => ""
         | x :: l' =>
             dumps_subset x +:+
             match l' with [] => "" | _ => ", " +:+ items l' end
         end) l +:+ "]"
  | JObj kv =>
      "{" +:+
      (fix members (kv : list (string * json)) : string :=
         match kv with
         | [] => ""
         | (k, x) :: kv' =>
             quote k +:+ ": " +:+ dumps_subset x +:+
             match kv' with [] => "" | _ => ", " +:+ members kv' end
         end) kv +:+ "}"
  end.

End Py.

Import Py.

(** ** api_client.py: the stream reassembler *)

Module ApiClient.

(** One accumulated tool call:
    [{'id': .., 'type': 'function', 'function': {'name': .., 'arguments': ..}}] *)
Record function_ref : Type := {
  name : json;
  arguments : string
}.

Record tool_call : Type := {
  id : json;
  type : string;
  function : function_ref
}.

(** The dictionaries the generator yields, by their ['type']. *)
Inductive event : Type :=
| Thinking (content : json)
| Text (content : json)
| ToolCalls (tool_calls : list tool_call).

(** What an observer of the generator sees, in order: the yielded events
    and the warnings written to the log. *)
Inductive effect : Type :=
| Yield (ev : event)
| LogWarning (msg : string).

Definition think_open : event := Thinking (JStr ("<think>" +:+ LF)).
Definition think_close : event := Thinking (JStr (LF +:+ "</think>" +:+ LF)).

(** The two locals that live across lines. *)
Record stream_state : Type := {
  thinking_started : bool;
  tool_calls_acc : list tool_call
}.

Definition initial : stream_state :=
  {| thinking_started := false; tool_calls_acc := [] |}.

(** A piece of the generator body: the effects it produced and either
    the locals it leaves or the exception that ended the generator. *)
Definition run : Type := list effect * result stream_state.

Definition and_then (r : run) (k : stream_state -> run) : run :=
  match r with
  | (out, Ok st) => let '(out', r') := k st in (out ++ out', r')
  | (out, Raise e) => (out, Raise e)
  end.

Definition events (out : list effect) : list event :=
  omap (fun x => match x with Yield ev => Some ev | LogWarning _ => None end) out.

Section Reassembler.

(** [json.loads] on a [str]: [None] stands for [json.JSONDecodeError]. *)
Variable json_loads : string -> option json.
(** [json.dumps] *)
Variable json_dumps : json -> string.

(** The body of [for part in parts]. *)
Definition process_part (part : json) (st : stream_state) : run :=
  match part with
  | JObj kv =>
      match dict_lookup "thought" kv with
      | Some (JBool true) =>
          let opening :=
            if thinking_started st then [] else [Yield think_open] in
          (opening ++ [Yield (Thinking (default (JStr "") (dict_lookup "text" kv)))],
           Ok {| thinking_started := true; tool_calls_acc := tool_calls_acc st |})
      | _ =>
          match dict_lookup "text" kv with
          | Some txt =>
              let closing :=
                if thinking_started st then [Yield think_close] else [] in
              (closing ++ [Yield (Text txt)],
               Ok {| thinking_started := false; tool_calls_acc := tool_calls_acc st |})
          | None =>
              match dict_lookup "functionCall" kv with
              | Some (JObj fc) =>
                  let call :=
                    {| id := default JNull (dict_lookup "id" fc);
                       type := "function";
                       function :=
                         {| name := default JNull (dict_lookup "name" fc);
                            arguments :=
                              json_dumps (default (JObj []) (dict_lookup "args" fc)) |} |} in
                  ([], Ok {| thinking_started := thinking_started st;
                             tool_calls_acc := tool_calls_acc st ++ [call] |})
              | Some _ => ([], Raise AttributeError)
              | None => ([], Ok st)
              end
          end
      end
  | _ => ([], Raise AttributeError)
  end.

Fixpoint process_parts (parts : list json) (st : stream_state) : run :=
  match parts with
  | [] => ([], Ok st)
  | part :: rest => and_then (process_part part st) (process_parts rest)
  end.

(** [if finish_reason and tool_calls: ...] *)
Definition flush (finish_reason : json) (st : stream_state) : run :=
  if truthy finish_reason && match tool_calls_acc st with [] => false | _ => true end
  then
    let closing := if thinking_started st then [Yield think_close] else [] in
    (closing ++ [Yield (ToolCalls (tool_calls_acc st))],
     Ok {| thinking_started := false; tool_calls_acc := [] |})
  else ([], Ok st).

(** A step that raises before it has any effect ends the generator there. *)
Definition lift {A} (r : result A) (k : A -> run) : run :=
  match r with
  | Ok a => k a
  | Raise e => ([], Raise e)
  end.

(** The body of the [try] once [json.loads] has returned [data]. *)
Definition process_data (data : json) (st : stream_state) : run :=
  lift (bind (get data "response" (JObj [])) (fun response =>
        get response "candidates" (JArr [JObj []]))) (fun candidates =>
  lift (item0 candidates) (fun candidate =>
  lift (bind (get candidate "content" (JObj [])) (fun content =>
        get content "parts" (JArr []))) (fun parts =>
  and_then
    (if truthy parts
     then lift (iter parts) (fun items => process_parts items st)
     else ([], Ok st)) (fun st' =>
  lift (get candidate "finishReason" JNull) (fun finish_reason =>
  flush finish_reason st'))))).

(** The body of [async for line in response.aiter_lines()]. *)
Definition process_line (line : string) (st : stream_state) : run :=
  if negb (String.prefix "data: " line) then ([], Ok st)
  else
    let json_str := str_drop 6 line in
    match json_loads json_str with
    | Some data => process_data data st
    | None =>
        ([LogWarning ("Ignoring JSON parse error for line: " +:+ json_str)], Ok st)
    end.

Fixpoint process_lines (lines : list string) (st : stream_state) : run :=
  match lines with
  | [] => ([], Ok st)
  | line :: rest => and_then (process_line line st) (process_lines rest)
  end.

(** [ApiClient.generate_assistant_response] from the point where the
    upstream has answered with status 200: [lines] is what
    [response.aiter_lines()] delivers. *)
Definition generate_assistant_response (lines : list string) : run :=
  process_lines lines initial.

(** *** The documents of the example and the shape of a valid document *)

(** A document whose first candidate has the content parts [parts] and the
    further fields [fields]. *)
Definition document (parts : list json) (fields : list (string * json)) : json :=
  JObj [("response",
         JObj [("candidates",
                JArr [JObj (("content", JObj [("parts", JArr parts)]) :: fields)])])].

Definition thought_doc (txt : string) : json :=
  document [JObj [("thought", JBool true); ("text", JStr txt)]] [].

Definition text_doc (txt : string) : json :=
  document [JObj [("text", JStr txt)]] [].

Definition call_finish_doc (fname : string) : json :=
  document [JObj [("functionCall", JObj [("name", JStr fname)])]]
           [("finishReason", JStr "STOP")].

(** A content part is a dictionary, and its function call, when it has
    one, is a dictionary too. *)
Definition part_ok (part : json) : bool :=
  match part with
  | JObj kv =>
      match dict_lookup "functionCall" kv with
      | Some (JObj _) | None => true
      | Some _ => false
      end
  | _ => false
  end.

(** The upstream's streamed document: a dictionary whose response holds a
    candidate list, the first candidate a dictionary with a list of
    content parts (every level may be absent). *)
Definition document_ok (data : json) : bool :=
  match data with
  | JObj kv =>
      match default (JObj []) (dict_lookup "response" kv) with
      | JObj response =>
          match default (JArr [JObj []]) (dict_lookup "candidates" response) with
          | JArr (JObj candidate :: _) =>
              match default (JObj []) (dict_lookup "content" candidate) with
              | JObj content =>
                  match default (JArr []) (dict_lookup "parts" content) with
                  | JArr parts => forallb part_ok parts
                  | _ => false
                  end
              | _ => false
              end
          | _ => false
          end
      | _ => false
      end
  | _ => false
  end.

(** A payload line carrying the document [data]. *)
Definition payload_line (line : string) (data : json) : Prop :=
  String.prefix "data: " line = true /\ json_loads (str_drop 6 line) = Some data.

(** *** Properties *)

Lemma process_lines_app (pre post : list string) (st : stream_state) :
  process_lines (pre ++ post) st =
  and_then (process_lines pre st) (process_lines post).
Proof.
  revert st. induction pre as [|l pre IH]; intros st; simpl.
  - destruct (process_lines post st); reflexivity.
  - destruct (process_line l st) as [out [st'|e]]; simpl; [|reflexivity].
    rewrite IH.
    destruct (process_lines pre st') as [out' [st''|e]]; simpl.
    + destruct (process_lines post st'') as [out'' r]. by rewrite app_assoc.
    + reflexivity.
Qed.

Lemma process_line_payload (line : string) (data : json) (st : stream_state) :
  payload_line line data -> process_line line st = process_data data st.
Proof. intros [Hp Hd]. unfold process_line. by rewrite Hp, Hd. Qed.

Lemma process_line_unparsable (line : string) (st : stream_state) :
  String.prefix "data: " line = true ->
  json_loads (str_drop 6 line) = None ->
  process_line line st =
  ([LogWarning ("Ignoring JSON parse error for line: " +:+ str_drop 6 line)], Ok st).
Proof. intros Hp Hd. unfold process_line. by rewrite Hp, Hd. Qed.

(** An unparsable payload line anywhere in the stream only adds its
    warning: the locals reach the following lines as they were. *)
Lemma unparsable_line_anywhere (pre post : list string) (bad : string)
    (st st1 : stream_state) (out1 : list effect) :
  String.prefix "data: " bad = true ->
  json_loads (str_drop 6 bad) = None ->
  process_lines pre st = (out1, Ok st1) ->
  process_lines (pre ++ bad :: post) st =
  (out1 ++
   LogWarning ("Ignoring JSON parse error for line: " +:+ str_drop 6 bad) ::
   fst (process_lines post st1),
   snd (process_lines post st1)).
Proof.
  intros Hp Hbad Hpre. rewrite process_lines_app, Hpre. simpl.
  rewrite (process_line_unparsable _ _ Hp Hbad). simpl.
  destruct (process_lines post st1) as [out2 r]. reflexivity.
Qed.

Lemma process_part_ok (part : json) (st : stream_state) :
  part_ok part = true -> exists out st', process_part part st = (out, Ok st').
Proof.
  destruct part as [| | | |l|kv]; simpl; try discriminate.
  intros H.
  destruct (dict_lookup "thought" kv) as [[|[]| | | |]|];
    destruct (dict_lookup "text" kv);
    destruct (dict_lookup "functionCall" kv) as [[]|];
    try discriminate; eauto.
Qed.

Lemma process_parts_ok (parts : list json) (st : stream_state) :
  forallb part_ok parts = true ->
  exists out st', process_parts parts st = (out, Ok st').
Proof.
  revert st. induction parts as [|p parts IH]; intros st H; simpl in *.
  - eauto.
  - apply andb_prop in H as [Hp Hps].
    destruct (process_part_ok p st Hp) as (out & st1 & ->). simpl.
    destruct (IH st1 Hps) as (out' & st2 & ->). eauto.
Qed.

Lemma flush_ok (finish_reason : json) (st : stream_state) :
  exists out st', flush finish_reason st = (out, Ok st').
Proof. unfold flush. destruct (_ && _); eauto. Qed.

Lemma process_data_ok (data : json) (st : stream_state) :
  document_ok data = true -> exists out st', process_data data st = (out, Ok st').
Proof.
  unfold document_ok, process_data.
  destruct data as [| | | | |kv]; try discriminate. simpl.
  destruct (default (JObj []) (dict_lookup "response" kv))
    as [| | | | |response]; try discriminate. simpl.
  destruct (default (JArr [JObj []]) (dict_lookup "candidates" response))
    as [| | | |[|[| | | | |candidate] ?]|]; try discriminate. simpl.
  destruct (default (JObj []) (dict_lookup "content" candidate))
    as [| | | | |content]; try discriminate. simpl.
  destruct (default (JArr []) (dict_lookup "parts" content))
    as [| | | |parts|]; try discriminate.
  intros Hparts.
  destruct parts as [|p parts]; simpl.
  - destruct (flush_ok (default JNull (dict_lookup "finishReason" candidate)) st)
      as (out' & st2 & ->). eauto.
  - destruct (process_parts_ok (p :: parts) st Hparts) as (out & st1 & Hrun).
    simpl in Hrun. rewrite Hrun. simpl.
    destruct (flush_ok (default JNull (dict_lookup "finishReason" candidate)) st1)
      as (out' & st2 & ->). eauto.
Qed.

Lemma events_app (out out' : list effect) :
  events (out ++ out') = events out ++ events out'.
Proof. unfold events. apply omap_app. Qed.

(** *** Further properties of the generator *)

Definition is_payload (line : string) : bool := String.prefix "data: " line.

(** X1. Lines that do not start with the payload marker are ignored: the
    run over a stream is the run over its payload lines alone. *)
Theorem non_payload_lines_ignored (lines : list string) (st : stream_state) :
  process_lines (List.filter is_payload lines) st = process_lines lines st.
Proof.
  revert st. induction lines as [|l lines IH]; intros st; [reflexivity|].
  cbn [List.filter process_lines]. unfold process_line, is_payload.
  destruct (String.prefix "data: " l) eqn:Hp; cbn [negb process_lines].
  - unfold process_line. rewrite Hp. cbn [negb].
    destruct (match json_loads (str_drop 6 l) with
              | Some data => process_data data st
              | None => _
              end) as [out [st'|e]]; simpl; [|reflexivity].
    by rewrite IH.
  - rewrite IH. simpl. by destruct (process_lines lines st).
Qed.

(** X2. Only a line that does not parse is skipped.  A payload that
    parses to something else than a dictionary (a list, a string, a
    number, [null]) raises [AttributeError] at [data.get], and a
    dictionary whose response has an empty list of candidates raises
    [IndexError] at [candidates[0]].  The [except] clause names
    [json.JSONDecodeError] alone, so the generator ends there: what was
    yielded before stays yielded, nothing is logged for the line, and the
    lines after it are never read. *)
Theorem shapeless_payload_ends_stream (pre post : list string) (line : string)
    (data : json) (st st1 : stream_state) (out : list effect) :
  payload_line line data ->
  process_lines pre st = (out, Ok st1) ->
  ((forall kv, data <> JObj kv) ->
   process_lines (pre ++ line :: post) st = (out, Raise AttributeError)) /\
  (forall kv response,
     data = JObj kv ->
     dict_lookup "response" kv = Some (JObj response) ->
     dict_lookup "candidates" response = Some (JArr []) ->
     process_lines (pre ++ line :: post) st = (out, Raise IndexError)).
Proof.
  intros Hline Hpre. split.
  - intros Hshape. rewrite process_lines_app, Hpre. simpl.
    rewrite (process_line_payload _ _ _ Hline).
    destruct data as [| | | | |kv]; simpl; rewrite ?app_nil_r; try reflexivity.
    by destruct (Hshape kv).
  - intros kv response -> Hresponse Hcandidates.
    rewrite process_lines_app, Hpre. simpl.
    rewrite (process_line_payload _ _ _ Hline).
    unfold process_data. simpl. rewrite Hresponse. simpl. rewrite Hcandidates.
    simpl. by rewrite app_nil_r.
Qed.

(** The effect is not an empty batch of tool calls. *)
Definition not_empty_batch (x : effect) : Prop := x <> Yield (ToolCalls []).

Lemma and_then_Forall (P : effect -> Prop) (r : run) (k : stream_state -> run) :
  Forall P (fst r) -> (forall st, Forall P (fst (k st))) ->
  Forall P (fst (and_then r k)).
Proof.
  intros Hr Hk. destruct r as [out [st|e]]; simpl in *; [|assumption].
  specialize (Hk st). destruct (k st) as [out' r']. simpl in *.
  by apply Forall_app.
Qed.

Lemma lift_Forall {A} (P : effect -> Prop) (r : result A) (k : A -> run) :
  (forall a, Forall P (fst (k a))) -> Forall P (fst (lift r k)).
Proof. intros Hk. destruct r as [a|e]; simpl; [apply Hk|constructor]. Qed.

Lemma process_part_no_batch (part : json) (st : stream_state) :
  Forall not_empty_batch (fst (process_part part st)).
Proof.
  destruct part as [| | | | |kv]; simpl; try constructor.
  destruct (dict_lookup "thought" kv) as [[|[]| | | |]|];
    destruct (dict_lookup "text" kv);
    destruct (dict_lookup "functionCall" kv) as [[]|];
    destruct (thinking_started st); simpl;
    repeat constructor; discriminate.
Qed.

Lemma process_parts_no_batch (parts : list json) (st : stream_state) :
  Forall not_empty_batch (fst (process_parts parts st)).
Proof.
  revert st. induction parts as [|p parts IH]; intros st; simpl; [constructor|].
  apply and_then_Forall; [apply process_part_no_batch|apply IH].
Qed.

Lemma flush_no_empty_batch (finish_reason : json) (st : stream_state) :
  Forall not_empty_batch (fst (flush finish_reason st)).
Proof.
  unfold flush. destruct (truthy finish_reason); simpl; [|constructor].
  destruct (tool_calls_acc st) as [|c l] eqn:E; simpl; [constructor|].
  destruct (thinking_started st); simpl; repeat constructor; discriminate.
Qed.

Lemma process_data_no_empty_batch (data : json) (st : stream_state) :
  Forall not_empty_batch (fst (process_data data st)).
Proof.
  unfold process_data.
  apply lift_Forall. intros candidates.
  apply lift_Forall. intros candidate.
  apply lift_Forall. intros parts.
  apply and_then_Forall.
  - destruct (truthy parts); [|constructor].
    apply lift_Forall. intros items. apply process_parts_no_batch.
  - intros st'. apply lift_Forall. intros fr. apply flush_no_empty_batch.
Qed.

Lemma process_lines_no_empty_batch (lines : list string) (st : stream_state) :
  Forall not_empty_batch (fst (process_lines lines st)).
Proof.
  revert st. induction lines as [|l lines IH]; intros st; simpl; [constructor|].
  apply and_then_Forall; [|apply IH].
  unfold process_line. destruct (negb _); [constructor|].
  destruct (json_loads _); [apply process_data_no_empty_batch|].
  repeat constructor. discriminate.
Qed.

(** X3. A batch of tool calls is never yielded empty, whatever the
    stream and the locals it starts from. *)
Theorem batches_never_empty (lines : list string) (st : stream_state) :
  Forall not_empty_batch (fst (process_lines lines st)).
Proof. apply process_lines_no_empty_batch. Qed.

Lemma and_then_ok (r : run) (k : stream_state -> run) (out : list effect)
    (st' : stream_state) :
  and_then r k = (out, Ok st') ->
  exists out1 st1 out2,
    r = (out1, Ok st1) /\ k st1 = (out2, Ok st') /\ out = out1 ++ out2.
Proof.
  destruct r as [out1 [st1|e]]; simpl; [|discriminate].
  destruct (k st1) as [out2 r2] eqn:Hk. intros H. inversion H; subst.
  by exists out1, st1, out2.
Qed.

Lemma lift_ok {A} (r : result A) (k : A -> run) (out : list effect)
    (st' : stream_state) :
  lift r k = (out, Ok st') -> exists a, r = Ok a /\ k a = (out, Ok st').
Proof. destruct r as [a|e]; simpl; [eauto|discriminate]. Qed.

(** The tool call a content part contributes to the pending batch. *)
Definition call_of_part (part : json) : option tool_call :=
  match part with
  | JObj kv =>
      match dict_lookup "thought" kv, dict_lookup "text" kv,
            dict_lookup "functionCall" kv with
      | Some (JBool true), _, _ => None
      | _, Some _, _ => None
      | _, None, Some (JObj fc) =>
          Some {| id := default JNull (dict_lookup "id" fc);
                  type := "function";
                  function :=
                    {| name := default JNull (dict_lookup "name" fc);
                       arguments :=
                         json_dumps (default (JObj []) (dict_lookup "args" fc)) |} |}
      | _, _, _ => None
      end
  | _ => None
  end.

(** The content parts of the first candidate of a document. *)
Definition parts_of (data : json) : list json :=
  match bind (bind (bind (get data "response" (JObj [])) (fun response =>
                          get response "candidates" (JArr [JObj []]))) item0)
             (fun candidate =>
                bind (get candidate "content" (JObj [])) (fun content =>
                get content "parts" (JArr []))) with
  | Ok parts =>
      if truthy parts
      then match iter parts with Ok items => items | Raise _ => [] end
      else []
  | Raise _ => []
  end.

(** The tool calls a line of the stream carries. *)
Definition calls_of_line (line : string) : list tool_call :=
  if is_payload line then
    match json_loads (str_drop 6 line) with
    | Some data => omap call_of_part (parts_of data)
    | None => []
    end
  else [].

(** The tool calls yielded, batch after batch. *)
Definition batched (out : list effect) : list tool_call :=
  flat_map (fun x => match x with Yield (ToolCalls l) => l | _ => [] end) out.

Lemma batched_app (out out' : list effect) :
  batched (out ++ out') = batched out ++ batched out'.
Proof. apply flat_map_app. Qed.

Lemma process_part_calls (part : json) (st st' : stream_state) (out : list effect) :
  process_part part st = (out, Ok st') ->
  batched out = [] /\
  tool_calls_acc st' = tool_calls_acc st ++ option_list (call_of_part part).
Proof.
  destruct part as [| | | | |kv]; simpl; try discriminate.
  destruct (dict_lookup "thought" kv) as [[|[]| | | |]|];
    destruct (dict_lookup "text" kv);
    destruct (dict_lookup "functionCall" kv) as [[]|];
    destruct (thinking_started st);
    intros H; inversion H; subst; simpl; rewrite ?app_nil_r; by split.
Qed.

Lemma process_parts_calls (parts : list json) (st st' : stream_state)
    (out : list effect) :
  process_parts parts st = (out, Ok st') ->
  batched out = [] /\
  tool_calls_acc st' = tool_calls_acc st ++ omap call_of_part parts.
Proof.
  revert st out. induction parts as [|p parts IH]; intros st out; simpl.
  - intros H. inversion H; subst. by rewrite app_nil_r.
  - intros H. apply and_then_ok in H as (out1 & st1 & out2 & H1 & H2 & ->).
    apply process_part_calls in H1 as [Hb1 Ha1].
    apply IH in H2 as [Hb2 Ha2].
    rewrite batched_app, Hb1, Hb2, Ha2, Ha1, <- app_assoc. split; [reflexivity|].
    f_equal. by destruct (call_of_part p).
Qed.

Lemma flush_calls (finish_reason : json) (st st' : stream_state) (out : list effect) :
  flush finish_reason st = (out, Ok st') ->
  batched out ++ tool_calls_acc st' = tool_calls_acc st.
Proof.
  unfold flush. destruct (truthy finish_reason); simpl.
  - destruct (tool_calls_acc st) as [|c l] eqn:E.
    + intros H. inversion H; subst. by rewrite E.
    + destruct (thinking_started st); intros H; inversion H; subst; simpl;
        by rewrite !app_nil_r.
  - intros H. by inversion H; subst.
Qed.

Lemma process_data_calls (data : json) (st st' : stream_state) (out : list effect) :
  process_data data st = (out, Ok st') ->
  batched out ++ tool_calls_acc st' =
  tool_calls_acc st ++ omap call_of_part (parts_of data).
Proof.
  unfold process_data, parts_of. intros H.
  apply lift_ok in H as (candidates & -> & H). simpl.
  apply lift_ok in H as (candidate & -> & H). simpl.
  apply lift_ok in H as (parts & -> & H).
  apply and_then_ok in H as (out1 & st1 & out2 & H1 & H2 & ->).
  apply lift_ok in H2 as (fr & _ & H2). apply flush_calls in H2.
  rewrite batched_app, <- app_assoc, H2.
  destruct (truthy parts).
  - apply lift_ok in H1 as (items & -> & H1).
    apply process_parts_calls in H1 as [-> ->]. reflexivity.
  - inversion H1; subst. simpl. by rewrite app_nil_r.
Qed.

(** X4. Over a stream read to its end, no tool call is lost, repeated or
    reordered: the batches yielded, followed by the calls still pending,
    are the calls pending at the start followed by those the lines carry,
    in order.  What is pending at the end was never yielded. *)
Theorem tool_calls_conserved (lines : list string) (st st' : stream_state)
    (out : list effect) :
  process_lines lines st = (out, Ok st') ->
  batched out ++ tool_calls_acc st' =
  tool_calls_acc st ++ flat_map calls_of_line lines.
Proof.
  revert st out. induction lines as [|l lines IH]; intros st out; simpl.
  - intros H. inversion H; subst. simpl. by rewrite app_nil_r.
  - intros H. apply and_then_ok in H as (out1 & st1 & out2 & H1 & H2 & ->).
    apply IH in H2. rewrite batched_app, <- app_assoc, H2, !app_assoc.
    f_equal. unfold process_line in H1. unfold calls_of_line, is_payload.
    destruct (String.prefix "data: " l); cbn [negb] in H1.
    + destruct (json_loads (str_drop 6 l)) as [data|].
      * by apply process_data_calls.
      * inversion H1; subst. simpl. by rewrite app_nil_r.
    + inversion H1; subst. simpl. by rewrite app_nil_r.
Qed.

(** Whether the generator is inside a thinking span after yielding [evs],
    having been so or not [before]. *)
Definition in_span_after (evs : list event) (before : bool) : bool :=
  match last evs with
  | Some (Thinking _) => true
  | Some _ => false
  | None => before
  end.

Lemma in_span_after_app (evs evs' : list event) (before : bool) :
  in_span_after (evs ++ evs') before =
  in_span_after evs' (in_span_after evs before).
Proof.
  destruct evs' as [|x evs' _] using rev_ind.
  - by rewrite app_nil_r.
  - unfold in_span_after at 1 2. by rewrite app_assoc, !last_snoc.
Qed.

Lemma process_part_span (part : json) (st st' : stream_state) (out : list effect) :
  process_part part st = (out, Ok st') ->
  thinking_started st' = in_span_after (events out) (thinking_started st).
Proof.
  destruct part as [| | | | |kv]; simpl; try discriminate.
  destruct (dict_lookup "thought" kv) as [[|[]| | | |]|];
    destruct (dict_lookup "text" kv);
    destruct (dict_lookup "functionCall" kv) as [[]|];
    destruct (thinking_started st) eqn:Hs;
    intros H; inversion H; subst; simpl; try reflexivity; by rewrite Hs.
Qed.

Lemma process_parts_span (parts : list json) (st st' : stream_state)
    (out : list effect) :
  process_parts parts st = (out, Ok st') ->
  thinking_started st' = in_span_after (events out) (thinking_started st).
Proof.
  revert st out. induction parts as [|p parts IH]; intros st out; simpl.
  - intros H. by inversion H; subst.
  - intros H. apply and_then_ok in H as (out1 & st1 & out2 & H1 & H2 & ->).
    rewrite events_app, in_span_after_app.
    rewrite <- (process_part_span _ _ _ _ H1). by apply IH.
Qed.

Lemma flush_span (finish_reason : json) (st st' : stream_state) (out : list effect) :
  flush finish_reason st = (out, Ok st') ->
  thinking_started st' = in_span_after (events out) (thinking_started st).
Proof.
  unfold flush. destruct (truthy finish_reason); simpl.
  - destruct (tool_calls_acc st) as [|c l].
    + intros H. by inversion H; subst.
    + destruct (thinking_started st); intros H; by inversion H; subst.
  - intros H. by inversion H; subst.
Qed.

Lemma process_data_span (data : json) (st st' : stream_state) (out : list effect) :
  process_data data st = (out, Ok st') ->
  thinking_started st' = in_span_after (events out) (thinking_started st).
Proof.
  unfold process_data. intros H.
  apply lift_ok in H as (candidates & _ & H).
  apply lift_ok in H as (candidate & _ & H).
  apply lift_ok in H as (parts & _ & H).
  apply and_then_ok in H as (out1 & st1 & out2 & H1 & H2 & ->).
  apply lift_ok in H2 as (fr & _ & H2). apply flush_span in H2.
  rewrite events_app, in_span_after_app, H2. f_equal.
  destruct (truthy parts).
  - apply lift_ok in H1 as (items & _ & H1). by apply (process_parts_span items).
  - by inversion H1; subst.
Qed.

(** X5. The generator is inside a thinking span exactly when the last
    event it yielded is a thinking event (or, having yielded nothing, when
    it started inside one): a text or a batch is never yielded with the
    span left open, and a stream that ends on thought parts ends without
    the closing marker. *)
Theorem span_follows_last_event (lines : list string) (st st' : stream_state)
    (out : list effect) :
  process_lines lines st = (out, Ok st') ->
  thinking_started st' = in_span_after (events out) (thinking_started st).
Proof.
  revert st out. induction lines as [|l lines IH]; intros st out; simpl.
  - intros H. by inversion H; subst.
  - intros H. apply and_then_ok in H as (out1 & st1 & out2 & H1 & H2 & ->).
    rewrite events_app, in_span_after_app. apply IH in H2. rewrite H2. f_equal.
    unfold process_line in H1.
    destruct (negb _); [by inversion H1; subst|].
    destruct (json_loads _) as [data|]; [by apply (process_data_span data)|].
    by inversion H1; subst.
Qed.

(** C1. For the documents [{thought: "a"}], [{text: "b"}] and
    [{functionCall: {name: "f"}}] with a finish reason, delivered on three
    payload lines, the generator yields exactly: the opening marker of the
    thinking span, the thinking text "a", the closing marker, the text "b"
    and one batch holding the call of "f"; it logs nothing and ends
    normally with both locals cleared. *)
Theorem reassembly_example (l1 l2 l3 : string) :
  payload_line l1 (thought_doc "a") ->
  payload_line l2 (text_doc "b") ->
  payload_line l3 (call_finish_doc "f") ->
  generate_assistant_response [l1; l2; l3] =
  ([Yield think_open;
    Yield (Thinking (JStr "a"));
    Yield think_close;
    Yield (Text (JStr "b"));
    Yield (ToolCalls
             [{| id := JNull;
                 type := "function";
                 function := {| name := JStr "f";
                                arguments := json_dumps (JObj []) |} |}])],
   Ok initial).
Proof.
  intros H1 H2 H3. unfold generate_assistant_response. simpl.
  rewrite (process_line_payload _ _ _ H1). simpl.
  rewrite (process_line_payload _ _ _ H2). simpl.
  rewrite (process_line_payload _ _ _ H3). reflexivity.
Qed.

(** C9. A payload line that does not parse, placed between two valid
    payload lines, is logged and skipped: the generator ends normally, what
    it yields is what the first line yields followed by what the second
    line yields from the locals the first one left, and the run differs
    from the run over the two valid lines alone only by the warning.  With
    a thought "a" on the first line and a text "b" on the second, the run
    is: the opening marker, the thought, the warning, the closing marker
    and the text; the span opened before the bad line is closed after
    it. *)
Theorem malformed_line_skipped (l1 bad l2 : string) (d1 d2 : json) :
  payload_line l1 d1 -> document_ok d1 = true ->
  payload_line l2 d2 -> document_ok d2 = true ->
  String.prefix "data: " bad = true ->
  json_loads (str_drop 6 bad) = None ->
  (exists out1 st1 out2 st2,
     process_data d1 initial = (out1, Ok st1) /\
     process_data d2 st1 = (out2, Ok st2) /\
     generate_assistant_response [l1; l2] = (out1 ++ out2, Ok st2) /\
     generate_assistant_response [l1; bad; l2] =
       (out1 ++
        [LogWarning ("Ignoring JSON parse error for line: " +:+ str_drop 6 bad)] ++
        out2, Ok st2) /\
     events (fst (generate_assistant_response [l1; bad; l2])) =
       events out1 ++ events out2) /\
  forall a b : string,
    d1 = thought_doc a -> d2 = text_doc b ->
    generate_assistant_response [l1; bad; l2] =
      ([Yield think_open;
        Yield (Thinking (JStr a));
        LogWarning ("Ignoring JSON parse error for line: " +:+ str_drop 6 bad);
        Yield think_close;
        Yield (Text (JStr b))],
       Ok initial) /\
    generate_assistant_response [l1; l2] =
      ([Yield think_open;
        Yield (Thinking (JStr a));
        Yield think_close;
        Yield (Text (JStr b))],
       Ok initial).
Proof.
  intros H1 Hd1 H2 Hd2 Hp Hbad. split.
  - destruct (process_data_ok d1 initial Hd1) as (out1 & st1 & E1).
    destruct (process_data_ok d2 st1 Hd2) as (out2 & st2 & E2).
    exists out1, st1, out2, st2.
    assert (Hgood : generate_assistant_response [l1; l2] = (out1 ++ out2, Ok st2)).
    { unfold generate_assistant_response. simpl.
      rewrite (process_line_payload _ _ _ H1), E1. simpl.
      rewrite (process_line_payload _ _ _ H2), E2. simpl.
      by rewrite app_nil_r. }
    assert (Hrun : generate_assistant_response [l1; bad; l2] =
      (out1 ++
       [LogWarning ("Ignoring JSON parse error for line: " +:+ str_drop 6 bad)] ++
       out2, Ok st2)).
    { unfold generate_assistant_response. simpl.
      rewrite (process_line_payload _ _ _ H1), E1. simpl.
      rewrite (process_line_unparsable _ _ Hp Hbad). simpl.
      rewrite (process_line_payload _ _ _ H2), E2. simpl.
      by rewrite app_nil_r. }
    repeat split; try assumption.
    rewrite Hrun. simpl. rewrite !events_app. reflexivity.
  - intros a b -> ->. unfold generate_assistant_response. simpl. split.
    + rewrite (process_line_payload _ _ _ H1). simpl.
      rewrite (process_line_unparsable _ _ Hp Hbad). simpl.
      rewrite (process_line_payload _ _ _ H2). reflexivity.
    + rewrite (process_line_payload _ _ _ H1). simpl.
      rewrite (process_line_payload _ _ _ H2). reflexivity.
Qed.

End Reassembler.

Definition thought_a_line : string :=
  dq "data: {'response': {'candidates': [{'content': {'parts': [{'thought': true, 'text': 'a'}]}}]}}".

Definition text_b_line : string :=
  dq "data: {'response': {'candidates': [{'content': {'parts': [{'text': 'b'}]}}]}}".

Definition call_f_line : string :=
  dq "data: {'response': {'candidates': [{'content': {'parts': [{'functionCall': {'name': 'f'}}]}, 'finishReason': 'STOP'}]}}".

(** The text line cut short before its last brace. *)
Definition truncated_line : string :=
  dq "data: {'response': {'candidates': [{'content': {'parts': [{'text': 'b'}]}}]}".

Lemma reassembly_example_witness :
  payload_line loads_subset thought_a_line (thought_doc "a") /\
  payload_line loads_subset text_b_line (text_doc "b") /\
  payload_line loads_subset call_f_line (call_finish_doc "f") /\
  generate_assistant_response loads_subset dumps_subset
    [thought_a_line; text_b_line; call_f_line] =
  ([Yield think_open;
    Yield (Thinking (JStr "a"));
    Yield think_close;
    Yield (Text (JStr "b"));
    Yield (ToolCalls
             [{| id := JNull;
                 type := "function";
                 function := {| name := JStr "f";
                                arguments := dumps_subset (JObj []) |} |}])],
   Ok initial).
Proof.
  assert (H1 : payload_line loads_subset thought_a_line (thought_doc "a"))
    by (split; vm_compute; reflexivity).
  assert (H2 : payload_line loads_subset text_b_line (text_doc "b"))
    by (split; vm_compute; reflexivity).
  assert (H3 : payload_line loads_subset call_f_line (call_finish_doc "f"))
    by (split; vm_compute; reflexivity).
  split; [exact H1|]. split; [exact H2|]. split; [exact H3|].
  exact (reassembly_example loads_subset dumps_subset _ _ _ H1 H2 H3).
Defined.

Lemma malformed_line_skipped_witness :
  (payload_line loads_subset thought_a_line (thought_doc "a") /\
   document_ok (thought_doc "a") = true /\
   payload_line loads_subset text_b_line (text_doc "b") /\
   document_ok (text_doc "b") = true /\
   String.prefix "data: " truncated_line = true /\
   loads_subset (str_drop 6 truncated_line) = None) /\
  generate_assistant_response loads_subset dumps_subset
    [thought_a_line; truncated_line; text_b_line] =
    ([Yield think_open;
      Yield (Thinking (JStr "a"));
      LogWarning ("Ignoring JSON parse error for line: " +:+
                  str_drop 6 truncated_line);
      Yield think_close;
      Yield (Text (JStr "b"))],
     Ok initial) /\
  generate_assistant_response loads_subset dumps_subset
    [thought_a_line; text_b_line] =
    ([Yield think_open;
      Yield (Thinking (JStr "a"));
      Yield think_close;
      Yield (Text (JStr "b"))],
     Ok initial).
Proof.
  assert (H1 : payload_line loads_subset thought_a_line (thought_doc "a"))
    by (split; vm_compute; reflexivity).
  assert (H2 : payload_line loads_subset text_b_line (text_doc "b"))
    by (split; vm_compute; reflexivity).
  assert (Hbad : loads_subset (str_drop 6 truncated_line) = None)
    by (vm_compute; reflexivity).
  split.
  - split; [exact H1|]. split; [reflexivity|]. split; [exact H2|].
    split; [reflexivity|]. split; [reflexivity|exact Hbad].
  - exact (proj2 (malformed_line_skipped loads_subset dumps_subset
                    thought_a_line truncated_line text_b_line
                    (thought_doc "a") (text_doc "b")
                    H1 eq_refl H2 eq_refl eq_refl Hbad)
                 "a" "b" eq_refl eq_refl).
Defined.

(** A payload that parses but is a list, not a dictionary. *)
Definition list_line : string := "data: []".

(** A call of "g" in a document without a finish reason. *)
Definition call_g_line : string :=
  dq "data: {'response': {'candidates': [{'content': {'parts': [{'functionCall': {'id': 'c7', 'name': 'g'}}]}}]}}".

Definition call_of (call_id : json) (fname : string) : tool_call :=
  {| id := call_id; type := "function";
     function := {| name := JStr fname; arguments := "{}" |} |}.

(** A payload whose response holds no candidate. *)
Definition no_candidate_line : string :=
  dq "data: {'response': {'candidates': []}}".

Lemma shapeless_payload_ends_stream_witness :
  (payload_line loads_subset list_line (JArr []) /\
   payload_line loads_subset no_candidate_line
     (JObj [("response", JObj [("candidates", JArr [])])]) /\
   process_lines loads_subset dumps_subset [thought_a_line] initial =
     ([Yield think_open; Yield (Thinking (JStr "a"))],
      Ok {| thinking_started := true; tool_calls_acc := [] |})) /\
  process_lines loads_subset dumps_subset
    ([thought_a_line] ++ list_line :: [text_b_line]) initial =
    ([Yield think_open; Yield (Thinking (JStr "a"))], Raise AttributeError) /\
  process_lines loads_subset dumps_subset
    ([thought_a_line] ++ no_candidate_line :: [text_b_line]) initial =
    ([Yield think_open; Yield (Thinking (JStr "a"))], Raise IndexError).
Proof.
  assert (H1 : payload_line loads_subset list_line (JArr []))
    by (split; vm_compute; reflexivity).
  assert (H2 : payload_line loads_subset no_candidate_line
                 (JObj [("response", JObj [("candidates", JArr [])])]))
    by (split; vm_compute; reflexivity).
  assert (H : process_lines loads_subset dumps_subset [thought_a_line] initial =
              ([Yield think_open; Yield (Thinking (JStr "a"))],
               Ok {| thinking_started := true; tool_calls_acc := [] |}))
    by (vm_compute; reflexivity).
  split; [split; [exact H1|split; [exact H2|exact H]]|]. split.
  - exact (proj1 (shapeless_payload_ends_stream loads_subset dumps_subset
                    _ [text_b_line] _ _ _ _ _ H1 H)
                 ltac:(discriminate)).
  - exact (proj2 (shapeless_payload_ends_stream loads_subset dumps_subset
                    _ [text_b_line] _ _ _ _ _ H2 H)
                 _ _ eq_refl eq_refl eq_refl).
Defined.

Lemma tool_calls_conserved_witness :
  process_lines loads_subset dumps_subset
    [call_g_line; call_f_line; call_g_line] initial =
    ([Yield (ToolCalls [call_of (JStr "c7") "g"; call_of JNull "f"])],
     Ok {| thinking_started := false;
           tool_calls_acc := [call_of (JStr "c7") "g"] |}) /\
  batched [Yield (ToolCalls [call_of (JStr "c7") "g"; call_of JNull "f"])] ++
  [call_of (JStr "c7") "g"] =
  [] ++ flat_map (calls_of_line loads_subset dumps_subset)
          [call_g_line; call_f_line; call_g_line].
Proof.
  assert (H : process_lines loads_subset dumps_subset
                [call_g_line; call_f_line; call_g_line] initial =
              ([Yield (ToolCalls [call_of (JStr "c7") "g"; call_of JNull "f"])],
               Ok {| thinking_started := false;
                     tool_calls_acc := [call_of (JStr "c7") "g"] |}))
    by (vm_compute; reflexivity).
  split; [exact H|].
  exact (tool_calls_conserved loads_subset dumps_subset _ _ _ _ H).
Defined.

Lemma span_follows_last_event_witness :
  process_lines loads_subset dumps_subset [thought_a_line] initial =
    ([Yield think_open; Yield (Thinking (JStr "a"))],
     Ok {| thinking_started := true; tool_calls_acc := [] |}) /\
  true = in_span_after [think_open; Thinking (JStr "a")] false.
Proof.
  assert (H : process_lines loads_subset dumps_subset [thought_a_line] initial =
              ([Yield think_open; Yield (Thinking (JStr "a"))],
               Ok {| thinking_started := true; tool_calls_acc := [] |}))
    by (vm_compute; reflexivity).
  split; [exact H|].
  exact (span_follows_last_event loads_subset dumps_subset _ _ _ _ H).
Defined.

End ApiClient.

(** ** utils.py: the message translator *)

Module Utils.

(** The f-string of [generate_request_id] doubles its braces, so
    [uuid.uuid4().hex] is literal text and no UUID is drawn.  The argument
    stands for what [uuid.uuid4().hex] would give at the moment of the
    call; the body never consults it. *)
Definition generate_request_id (uuid4_hex : string) : string :=
  "req_{uuid.uuid4().hex}".

(** *** The public conversation

    Text is ASCII: a character is a code point below 128. *)

(** One segment of a multimodal [content] list, by its ['type']:
    ['text'] with its optional ['text'], ['image_url'] with its optional
    [['image_url']['url']], or anything else. *)
Inductive content_item : Type :=
| TextItem (text : option string)
| ImageUrlItem (url : option string)
| OtherItem.

(** A message's ['content']: absent or [None], a string, or a list of
    segments. *)
Inductive content : Type :=
| NoContent
| StrContent (s : string)
| ListContent (items : list content_item).

(** One entry of an assistant message's ['tool_calls']; ['arguments'] is
    whatever the client sent (a string when well formed). *)
Record tool_call : Type := {
  id : option string;
  name : string;
  arguments : json
}.

Record message : Type := {
  role : string;
  msg_content : content;
  tool_calls : option (list tool_call);
  tool_call_id : option string
}.

(** *** The upstream conversation *)

Inductive upstream_role : Type := user | model.

Inductive part : Type :=
| text (t : string)
| inlineData (mimeType data : string)
| functionCall (call_id : option string) (fname : string) (args : json)
| functionResponse (call_id : option string) (fname : string) (output : content).

Record turn : Type := {
  turn_role : upstream_role;
  parts : list part
}.

#[global] Instance upstream_role_eq_dec : EqDecision upstream_role.
Proof. solve_decision. Defined.

(** *** Text helpers *)

(** [c.isspace()] *)
Definition is_space (c : Ascii.ascii) : bool :=
  let n := Ascii.nat_of_ascii c in
  (Nat.leb 9 n && Nat.leb n 13) || (Nat.leb 28 n && Nat.leb n 32).

Fixpoint lstrip (s : string) : string :=
  match s with
  | String c s' => if is_space c then lstrip s' else s
  | "" => ""
  end.

(** [s.strip()] *)
Definition strip (s : string) : string :=
  String.rev (lstrip (String.rev (lstrip s))).

(** [\w] *)
Definition is_word (c : Ascii.ascii) : bool :=
  let n := Ascii.nat_of_ascii c in
  (Nat.leb 48 n && Nat.leb n 57) || (Nat.leb 65 n && Nat.leb n 90) ||
  (Nat.leb 97 n && Nat.leb n 122) || Nat.eqb n 95.

Fixpoint span_word (s : string) : string * string :=
  match s with
  | String c s' =>
      if is_word c
      then let '(w, rest) := span_word s' in (String c w, rest)
      else ("", s)
  | "" => ("", "")
  end.

Fixpoint has_newline (s : string) : bool :=
  match s with
  | String c s' => Nat.eqb (Ascii.nat_of_ascii c) 10 || has_newline s'
  | "" => false
  end.

(** [s] without one final line feed *)
Fixpoint chomp (s : string) : string :=
  match s with
  | "" => ""
  | String c "" => if Nat.eqb (Ascii.nat_of_ascii c) 10 then "" else s
  | String c s' => String c (chomp s')
  end.

(** [re.match(r'^data:image/(\w+);base64,(.+)$', url)]: the two groups. *)
Definition match_data_uri (url : string) : option (string * string) :=
  if String.prefix "data:image/" url then
    let '(fmt, rest) := span_word (str_drop 11 url) in
    if negb (String.eqb fmt "") && String.prefix ";base64," rest then
      let payload := chomp (str_drop 8 rest) in
      if negb (String.eqb payload "") && negb (has_newline payload)
      then Some (fmt, payload)
      else None
    else None
  else None.

(** *** The handlers *)

Record extracted : Type := {
  ex_text : string;
  ex_images : list part
}.

Definition extract_item (acc : extracted) (item : content_item) : extracted :=
  match item with
  | TextItem t =>
      {| ex_text := ex_text acc +:+ default "" t; ex_images := ex_images acc |}
  | ImageUrlItem url =>
      match match_data_uri (default "" url) with
      | Some (img_format, base64_data) =>
          {| ex_text := ex_text acc;
             ex_images :=
               ex_images acc ++ [inlineData ("image/" +:+ img_format) base64_data] |}
      | None => acc
      end
  | OtherItem => acc
  end.

Definition extract_images_from_content (c : content) : extracted :=
  match c with
  | StrContent s => {| ex_text := s; ex_images := [] |}
  | ListContent items =>
      fold_left extract_item items {| ex_text := ""; ex_images := [] |}
  | NoContent => {| ex_text := ""; ex_images := [] |}
  end.

Definition handle_user_message (ex : extracted) (antigravity_messages : list turn)
  : list turn :=
  antigravity_messages ++
  [{| turn_role := user; parts := text (ex_text ex) :: ex_images ex |}].

(** [f] applied to the last element, as the in-place updates of
    [antigravity_messages[-1]] do. *)
Fixpoint alter_last {A} (f : A -> A) (l : list A) : list A :=
  match l with
  | [] => []
  | [x] => [f x]
  | x :: l' => x :: alter_last f l'
  end.

Definition extend_parts (new : list part) (t : turn) : turn :=
  {| turn_role := turn_role t; parts := parts t ++ new |}.

(** [bool(message.get('tool_calls'))] *)
Definition has_tool_calls (m : message) : bool :=
  match tool_calls m with
  | Some (_ :: _) => true
  | _ => false
  end.

(** [bool(message.get('content') and message['content'].strip())]; a
    non-empty list has no [strip]. *)
Definition has_content (m : message) : result bool :=
  match msg_content m with
  | NoContent => Ok false
  | StrContent s => Ok (negb (String.eqb (strip s) ""))
  | ListContent [] => Ok false
  | ListContent (_ :: _) => Raise AttributeError
  end.

Section Translator.

(** [json.loads] on a [str]: [None] stands for [json.JSONDecodeError]. *)
Variable json_loads : string -> option json.

(** The arguments of a tool call: parsed when they are JSON text, wrapped
    as [{'query': raw}] otherwise. *)
Definition parse_arguments (raw : json) : json :=
  match raw with
  | JStr s =>
      match json_loads s with
      | Some args => args
      | None => JObj [("query", raw)]
      end
  | _ => JObj [("query", raw)]
  end.

Definition to_function_call (tc : tool_call) : part :=
  functionCall (id tc) (name tc) (parse_arguments (arguments tc)).

Definition to_function_calls (m : message) : list part :=
  if has_tool_calls m then map to_function_call (default [] (tool_calls m)) else [].

Definition handle_assistant_message (m : message) (antigravity_messages : list turn)
  : result (list turn) :=
  bind (has_content m) (fun has_content =>
  let antigravity_tools := to_function_calls m in
  let merge :=
    match last antigravity_messages with
    | Some last_message =>
        bool_decide (turn_role last_message = model) &&
        has_tool_calls m && negb has_content
    | None => false
    end in
  if merge
  then Ok (alter_last (extend_parts antigravity_tools) antigravity_messages)
  else
    let parts :=
      (if has_content
       then match msg_content m with StrContent s => [text s] | _ => [] end
       else []) ++ antigravity_tools in
    match parts with
    | [] => Ok antigravity_messages
    | _ => Ok (antigravity_messages ++ [{| turn_role := model; parts := parts |}])
    end).

(** The inner loop of the name search: the first [functionCall] part of
    the turn with the wanted id. *)
Fixpoint find_call (wanted : option string) (ps : list part) : option string :=
  match ps with
  | [] => None
  | functionCall call_id fname _ :: ps' =>
      if bool_decide (call_id = wanted) then Some fname else find_call wanted ps'
  | _ :: ps' => find_call wanted ps'
  end.

(** The outer loop, over the turns from the last to the first; it stops
    at the first [model] turn that gives a non-empty name. *)
Fixpoint find_function_name (wanted : option string) (reversed : list turn) : string :=
  match reversed with
  | [] => ""
  | t :: earlier =>
      let function_name :=
        if bool_decide (turn_role t = model)
        then default "" (find_call wanted (parts t))
        else "" in
      if negb (String.eqb function_name "") then function_name
      else find_function_name wanted earlier
  end.

Definition is_function_response (p : part) : bool :=
  match p with
  | functionResponse _ _ _ => true
  | _ => false
  end.

Definition function_response_of (m : message) (antigravity_messages : list turn) : part :=
  functionResponse (tool_call_id m)
    (find_function_name (tool_call_id m) (reverse antigravity_messages))
    (msg_content m).

Definition handle_tool_call (m : message) (antigravity_messages : list turn)
  : list turn :=
  let function_response := function_response_of m antigravity_messages in
  let merge :=
    match last antigravity_messages with
    | Some last_message =>
        bool_decide (turn_role last_message = user) &&
        existsb is_function_response (parts last_message)
    | None => false
    end in
  if merge
  then alter_last (extend_parts [function_response]) antigravity_messages
  else antigravity_messages ++
       [{| turn_role := user; parts := [function_response] |}].

(** The body of the loop of [openai_message_to_antigravity]. *)
Definition translate_message (m : message) (antigravity_messages : list turn)
  : result (list turn) :=
  if String.eqb (role m) "user" || String.eqb (role m) "system" then
    Ok (handle_user_message (extract_images_from_content (msg_content m))
          antigravity_messages)
  else if String.eqb (role m) "assistant" then
    handle_assistant_message m antigravity_messages
  else if String.eqb (role m) "tool" then
    Ok (handle_tool_call m antigravity_messages)
  else Ok antigravity_messages.

Fixpoint translate_messages (ms : list message) (antigravity_messages : list turn)
  : result (list turn) :=
  match ms with
  | [] => Ok antigravity_messages
  | m :: ms' =>
      bind (translate_message m antigravity_messages) (translate_messages ms')
  end.

Definition openai_message_to_antigravity (openai_messages : list message)
  : result (list turn) :=
  translate_messages openai_messages [].

(** *** Properties *)

Lemma alter_last_snoc {A} (f : A -> A) (l : list A) (x : A) :
  alter_last f (l ++ [x]) = l ++ [f x].
Proof.
  induction l as [|y l IH]; [reflexivity|].
  simpl. rewrite IH. destruct l; reflexivity.
Qed.

Lemma to_function_calls_some (m : message) (tcs : list tool_call) :
  tool_calls m = Some tcs -> tcs <> [] ->
  has_tool_calls m = true /\ to_function_calls m = map to_function_call tcs.
Proof.
  intros H Hne. unfold to_function_calls, has_tool_calls. rewrite H.
  destruct tcs; [congruence|]. split; reflexivity.
Qed.

(** An assistant message with tool calls and no text, after any upstream
    sequence: its calls go onto the last turn when that is a [model]
    turn, and onto a new [model] turn otherwise. *)
Lemma handle_assistant_tool_calls_only (m : message) (tcs : list tool_call)
    (out : list turn) :
  tool_calls m = Some tcs -> tcs <> [] -> has_content m = Ok false ->
  handle_assistant_message m out =
  Ok (match last out with
      | Some t =>
          if bool_decide (turn_role t = model)
          then alter_last (extend_parts (map to_function_call tcs)) out
          else out ++ [{| turn_role := model; parts := map to_function_call tcs |}]
      | None => out ++ [{| turn_role := model; parts := map to_function_call tcs |}]
      end).
Proof.
  intros H Hne Hc.
  destruct (to_function_calls_some m tcs H Hne) as [Ht Hcalls].
  unfold handle_assistant_message. rewrite Hc. simpl. rewrite Ht, Hcalls.
  assert (Hparts : exists p ps, map to_function_call tcs = p :: ps)
    by (destruct tcs; [congruence|]; simpl; eauto).
  destruct Hparts as (p & ps & Hparts).
  destruct (last out) as [t|]; simpl.
  - destruct (bool_decide (turn_role t = model)); simpl; [reflexivity|].
    rewrite Hparts. reflexivity.
  - rewrite Hparts. reflexivity.
Qed.

(** C3. Two consecutive assistant messages that each carry tool calls
    and no text other than whitespace translate to exactly one [model]
    turn.  Its parts are one [functionCall] per tool call, with the id and
    the name of the call and its arguments parsed, those of the first
    message followed by those of the second.  After any upstream sequence
    the calls of the second message are appended to the turn that
    received the calls of the first, never to a new turn. *)
Theorem consecutive_tool_call_turns_merge (a1 a2 : message)
    (tcs1 tcs2 : list tool_call) :
  role a1 = "assistant" -> tool_calls a1 = Some tcs1 -> tcs1 <> [] ->
  has_content a1 = Ok false ->
  role a2 = "assistant" -> tool_calls a2 = Some tcs2 -> tcs2 <> [] ->
  has_content a2 = Ok false ->
  let call_part := fun tc : tool_call =>
    functionCall (id tc) (name tc)
      match arguments tc with
      | JStr s =>
          match json_loads s with
          | Some args => args
          | None => JObj [("query", arguments tc)]
          end
      | _ => JObj [("query", arguments tc)]
      end in
  openai_message_to_antigravity [a1; a2] =
    Ok [{| turn_role := model; parts := map call_part tcs1 ++ map call_part tcs2 |}] /\
  forall out : list turn,
    exists pre ps,
      translate_messages [a1] out =
        Ok (pre ++ [{| turn_role := model; parts := ps ++ map call_part tcs1 |}]) /\
      translate_messages [a1; a2] out =
        Ok (pre ++ [{| turn_role := model;
                       parts := ps ++ map call_part tcs1 ++ map call_part tcs2 |}]) /\
      (out = pre /\ ps = [] \/ out = pre ++ [{| turn_role := model; parts := ps |}]).
Proof.
  intros R1 T1 N1 C1 R2 T2 N2 C2 call_part.
  change call_part with to_function_call. clear call_part.
  assert (Hgen : forall out : list turn,
    exists pre ps,
      translate_messages [a1] out =
        Ok (pre ++ [{| turn_role := model;
                       parts := ps ++ map to_function_call tcs1 |}]) /\
      translate_messages [a1; a2] out =
        Ok (pre ++ [{| turn_role := model;
                       parts := ps ++ map to_function_call tcs1 ++
                                map to_function_call tcs2 |}]) /\
      (out = pre /\ ps = [] \/
       out = pre ++ [{| turn_role := model; parts := ps |}])).
  { intros out. simpl. unfold translate_message. rewrite R1, R2. simpl.
    rewrite (handle_assistant_tool_calls_only a1 tcs1 out T1 N1 C1). simpl.
    assert (Hmid : exists pre ps,
      match last out with
      | Some t =>
          if bool_decide (turn_role t = model)
          then alter_last (extend_parts (map to_function_call tcs1)) out
          else out ++ [{| turn_role := model; parts := map to_function_call tcs1 |}]
      | None => out ++ [{| turn_role := model; parts := map to_function_call tcs1 |}]
      end = pre ++ [{| turn_role := model;
                       parts := ps ++ map to_function_call tcs1 |}] /\
      (out = pre /\ ps = [] \/
       out = pre ++ [{| turn_role := model; parts := ps |}])).
    { destruct out as [|t pre _] using rev_ind.
      - exists [], []. split; [reflexivity|by left].
      - rewrite last_snoc. case_bool_decide as Hrole.
        + exists pre, (parts t). rewrite alter_last_snoc. split.
          * unfold extend_parts. rewrite Hrole. reflexivity.
          * right. destruct t as [r ps]. simpl in *. by subst r.
        + exists (pre ++ [t]), []. split; [reflexivity|by left]. }
    destruct Hmid as (pre & ps & -> & Hshape).
    exists pre, ps. split; [reflexivity|].
    rewrite (handle_assistant_tool_calls_only a2 tcs2 _ T2 N2 C2).
    rewrite last_snoc. simpl. rewrite alter_last_snoc.
    split; [|exact Hshape].
    unfold extend_parts. simpl. by rewrite <- app_assoc. }
  split; [|exact Hgen].
  destruct (Hgen []) as (pre & ps & _ & Hrun & Hshape).
  unfold openai_message_to_antigravity. rewrite Hrun.
  destruct Hshape as [[<- ->]|Hshape]; [reflexivity|].
  by destruct pre.
Qed.

(** **** The name search *)

Lemma find_call_sound (wanted : option string) (ps : list part) (fname : string) :
  find_call wanted ps = Some fname ->
  exists args, functionCall wanted fname args ∈ ps.
Proof.
  induction ps as [|p ps IH]; simpl; [discriminate|].
  destruct p as [| |call_id f args|];
    try (intros H; destruct (IH H) as [a Ha]; exists a; by right).
  case_bool_decide as Hid.
  - intros [= <-]. subst call_id. exists args. by left.
  - intros H. destruct (IH H) as [a Ha]. exists a. by right.
Qed.

Lemma find_call_none (wanted : option string) (ps : list part) :
  (forall fname args, functionCall wanted fname args ∉ ps) ->
  find_call wanted ps = None.
Proof.
  intros Hno. destruct (find_call wanted ps) as [f|] eqn:E; [|reflexivity].
  destruct (find_call_sound _ _ _ E) as [a Ha]. by destruct (Hno f a).
Qed.

(** Within a turn the first call with the wanted id gives the name. *)
Lemma find_call_first (wanted : option string) (ps1 ps2 : list part)
    (fname : string) (args : json) :
  (forall f a, functionCall wanted f a ∈ ps1 -> f = fname) ->
  find_call wanted (ps1 ++ functionCall wanted fname args :: ps2) = Some fname.
Proof.
  induction ps1 as [|p ps1 IH]; intros Hfirst; simpl.
  - by rewrite bool_decide_eq_true_2.
  - assert (Hrest : forall f a, functionCall wanted f a ∈ ps1 -> f = fname).
    { intros f a Hin. apply (Hfirst f a). by right. }
    destruct p as [| |call_id f a|]; try (by apply IH).
    case_bool_decide as Hid; [|by apply IH].
    subst call_id. f_equal. apply (Hfirst f a). by left.
Qed.

(** Among the turns the last [model] turn with a call of the wanted id
    under a non-empty name gives the name: the turns after it are
    searched first, and only a call with the wanted id can stop the
    search there. *)
Lemma find_function_name_nearest (wanted : option string) (fname : string)
    (later earlier : list turn) (t : turn) (ps1 ps2 : list part) (args : json) :
  fname <> "" ->
  turn_role t = model ->
  parts t = ps1 ++ functionCall wanted fname args :: ps2 ->
  (forall f a, functionCall wanted f a ∈ ps1 -> f = fname) ->
  (forall t' f a, t' ∈ later -> turn_role t' = model ->
     functionCall wanted f a ∈ parts t' -> f = fname) ->
  find_function_name wanted (later ++ t :: earlier) = fname.
Proof.
  intros Hne Hrole Hparts Hfirst.
  induction later as [|t' later IH]; intros Hlater; simpl.
  - rewrite bool_decide_eq_true_2 by assumption.
    rewrite Hparts, (find_call_first wanted ps1 ps2 fname args Hfirst). simpl.
    by apply String.eqb_neq in Hne as ->.
  - destruct (String.eqb _ "") eqn:E; simpl.
    + apply IH. intros t0 f a Hin. apply Hlater. by right.
    + case_bool_decide as Hr; [|simpl in E; discriminate].
      destruct (find_call wanted (parts t')) as [f|] eqn:Ef;
        [|simpl in E; discriminate].
      simpl. destruct (find_call_sound _ _ _ Ef) as [a Ha].
      apply (Hlater t' f a); [by left|done|done].
Qed.

Lemma find_function_name_unmatched (wanted : option string) (reversed : list turn) :
  (forall t f args,
     t ∈ reversed -> turn_role t = model ->
     functionCall wanted f args ∉ parts t) ->
  find_function_name wanted reversed = "".
Proof.
  induction reversed as [|t l IH]; intros Hno; [reflexivity|].
  simpl. case_bool_decide as Hrole; simpl.
  - rewrite find_call_none.
    + simpl. apply IH. intros t' f a Hin. apply Hno. by right.
    + intros f a. apply Hno; [by left|done].
  - apply IH. intros t' f a Hin. apply Hno. by right.
Qed.

(** **** Where the response part goes *)

(** Whatever the upstream sequence, the response part ends up as the last
    part of the last turn, which is a [user] turn: either the last turn of
    the sequence, extended, or a new one. *)
Lemma handle_tool_call_shape (m : message) (out : list turn) :
  exists pre ps,
    handle_tool_call m out =
      pre ++ [{| turn_role := user;
                 parts := ps ++ [function_response_of m out] |}] /\
    (out = pre /\ ps = [] \/ out = pre ++ [{| turn_role := user; parts := ps |}]).
Proof.
  unfold handle_tool_call.
  destruct out as [|t pre _] using rev_ind.
  - exists [], []. split; [reflexivity|by left].
  - rewrite last_snoc. case_bool_decide as Hrole; simpl.
    + destruct (existsb is_function_response (parts t)).
      * exists pre, (parts t). rewrite alter_last_snoc. split.
        -- unfold extend_parts. rewrite Hrole. reflexivity.
        -- right. destruct t as [r ps]. simpl in *. by subst r.
      * exists (pre ++ [t]), []. split; [reflexivity|by left].
    + exists (pre ++ [t]), []. split; [reflexivity|by left].
Qed.

(** C5 (as amended). The name of a function response is the name of the
    nearest call with the id of the tool message: the backward search
    stops at the last [model] turn that holds such a call under a
    non-empty name, and takes the first such call of that turn.  So when
    a [model] turn holds the call with the id and the name [fname], and
    every call with that id that the search meets before it, in a later
    [model] turn or earlier in the same turn, carries that name too,
    translating the tool message produces a function response with the
    id, the name [fname] and the tool's output, as the last part of the
    last turn.  With the id "c1" and the name "lookup" this is the
    pairing of the specification; calls with the id that come earlier in
    the conversation do not matter, whatever their names. *)
Theorem tool_result_pairing (pre post : list turn) (t : turn)
    (ps1 ps2 : list part) (args : json) (m : message)
    (call_id : option string) (fname : string) :
  tool_call_id m = call_id ->
  fname <> "" ->
  turn_role t = model ->
  parts t = ps1 ++ functionCall call_id fname args :: ps2 ->
  (forall f a, functionCall call_id f a ∈ ps1 -> f = fname) ->
  (forall t' f a, t' ∈ post -> turn_role t' = model ->
     functionCall call_id f a ∈ parts t' -> f = fname) ->
  exists pre' ps,
    handle_tool_call m (pre ++ t :: post) =
      pre' ++ [{| turn_role := user;
                  parts := ps ++ [functionResponse call_id fname (msg_content m)] |}] /\
    (pre ++ t :: post = pre' /\ ps = [] \/
     pre ++ t :: post = pre' ++ [{| turn_role := user; parts := ps |}]).
Proof.
  intros Hid Hne Hrole Hparts Hfirst Hlater.
  destruct (handle_tool_call_shape m (pre ++ t :: post)) as (pre' & ps & Hrun & Hshape).
  exists pre', ps. split; [|exact Hshape].
  rewrite Hrun. unfold function_response_of. rewrite Hid.
  rewrite reverse_app, reverse_cons, <- app_assoc. simpl.
  rewrite (find_function_name_nearest call_id fname (reverse post) (reverse pre)
             t ps1 ps2 args); try done.
  intros t' f a Hin. apply Hlater. by apply elem_of_reverse.
Qed.

(** C10. A tool message whose id matches no function call of any [model]
    turn is translated all the same: the translation succeeds, keeps every
    earlier turn, and ends with a function response carrying the id, the
    empty name and the tool's output. *)
Theorem unmatched_tool_result_kept (out : list turn) (m : message) :
  role m = "tool" ->
  (forall t f args,
     t ∈ out -> turn_role t = model ->
     functionCall (tool_call_id m) f args ∉ parts t) ->
  exists pre ps,
    translate_message m out =
      Ok (pre ++ [{| turn_role := user;
                     parts := ps ++ [functionResponse (tool_call_id m) ""
                                       (msg_content m)] |}]) /\
    (out = pre /\ ps = [] \/ out = pre ++ [{| turn_role := user; parts := ps |}]).
Proof.
  intros Hrole Hno.
  destruct (handle_tool_call_shape m out) as (pre & ps & Hrun & Hshape).
  exists pre, ps. split; [|exact Hshape].
  unfold translate_message. rewrite Hrole. simpl. rewrite Hrun.
  unfold function_response_of.
  rewrite find_function_name_unmatched; [reflexivity|].
  intros t f a Hin. apply Hno. by apply elem_of_reverse.
Qed.

(** **** The user turns the translator builds *)

(** A [user] turn holds a function response only when all its parts are
    function responses. *)
Definition uniform (t : turn) : Prop :=
  turn_role t = user ->
  existsb is_function_response (parts t) =
  forallb is_function_response (parts t).

Lemma extract_item_images (acc : extracted) (item : content_item) :
  existsb is_function_response (ex_images acc) = false ->
  existsb is_function_response (ex_images (extract_item acc item)) = false.
Proof.
  intros H. destruct item as [t|url|]; simpl; try assumption.
  destruct (match_data_uri (default "" url)) as [[fmt payload]|]; simpl;
    [|assumption].
  rewrite existsb_app, H. reflexivity.
Qed.

Lemma extract_images_only_images (c : content) :
  existsb is_function_response (ex_images (extract_images_from_content c)) = false.
Proof.
  destruct c as [|s|items]; simpl; try reflexivity.
  assert (H : existsb is_function_response
                (ex_images {| ex_text := ""; ex_images := [] |}) = false)
    by reflexivity.
  revert H. generalize {| ex_text := ""; ex_images := [] |}.
  induction items as [|item items IH]; intros acc H; simpl; [assumption|].
  apply IH. by apply extract_item_images.
Qed.

Lemma alter_last_Forall {A} (P : A -> Prop) (f : A -> A) (l : list A) :
  Forall P l -> (forall x, last l = Some x -> P (f x)) ->
  Forall P (alter_last f l).
Proof.
  destruct l as [|x pre _] using rev_ind; intros Hl Hf; [constructor|].
  rewrite alter_last_snoc. apply Forall_app in Hl as [Hpre _].
  apply Forall_app. split; [assumption|].
  constructor; [|constructor]. apply Hf. apply last_snoc.
Qed.

Lemma handle_tool_call_uniform (m : message) (out : list turn) :
  Forall uniform out -> Forall uniform (handle_tool_call m out).
Proof.
  intros Hout. unfold handle_tool_call.
  destruct (last out) as [t|] eqn:Hlast; simpl.
  - case_bool_decide as Hrole; simpl.
    + destruct (existsb is_function_response (parts t)) eqn:Hany.
      * apply alter_last_Forall; [assumption|].
        intros x Hx. rewrite Hlast in Hx. injection Hx as <-.
        intros _. simpl. rewrite existsb_app, forallb_app, Hany. simpl.
        assert (Ht : uniform t).
        { apply last_Some in Hlast as [pre ->].
          apply Forall_app in Hout as [_ Ht]. by inversion Ht. }
        rewrite <- (Ht Hrole), Hany. reflexivity.
      * apply Forall_app. split; [assumption|].
        constructor; [|constructor]. intros _. reflexivity.
    + apply Forall_app. split; [assumption|].
      constructor; [|constructor]. intros _. reflexivity.
  - apply Forall_app. split; [assumption|].
    constructor; [|constructor]. intros _. reflexivity.
Qed.

Lemma handle_assistant_message_uniform (m : message) (out out' : list turn) :
  Forall uniform out -> handle_assistant_message m out = Ok out' ->
  Forall uniform out'.
Proof.
  intros Hout. unfold handle_assistant_message.
  destruct (has_content m) as [hc|e]; simpl; [|discriminate].
  destruct (match last out with
            | Some last_message =>
                bool_decide (turn_role last_message = model) &&
                has_tool_calls m && negb hc
            | None => false
            end) eqn:Hmerge.
  - intros [= <-]. apply alter_last_Forall; [assumption|].
    intros x Hx. rewrite Hx in Hmerge.
    apply andb_prop in Hmerge as [Hmerge _].
    apply andb_prop in Hmerge as [Hmerge _].
    apply bool_decide_eq_true in Hmerge.
    intros Hu. simpl in Hu. congruence.
  - destruct (_ ++ to_function_calls m) as [|p ps].
    + by intros [= <-].
    + intros [= <-]. apply Forall_app. split; [assumption|].
      constructor; [|constructor]. intros Hu. discriminate.
Qed.

Lemma translate_message_uniform (m : message) (out out' : list turn) :
  Forall uniform out -> translate_message m out = Ok out' ->
  Forall uniform out'.
Proof.
  intros Hout. unfold translate_message.
  destruct (String.eqb (role m) "user" || String.eqb (role m) "system").
  - intros [= <-]. unfold handle_user_message.
    apply Forall_app. split; [assumption|].
    constructor; [|constructor]. intros _. simpl.
    apply extract_images_only_images.
  - destruct (String.eqb (role m) "assistant").
    + by apply handle_assistant_message_uniform.
    + destruct (String.eqb (role m) "tool").
      * intros [= <-]. by apply handle_tool_call_uniform.
      * by intros [= <-].
Qed.

Lemma translate_messages_uniform (ms : list message) (out out' : list turn) :
  Forall uniform out -> translate_messages ms out = Ok out' ->
  Forall uniform out'.
Proof.
  revert out. induction ms as [|m ms IH]; intros out Hout; simpl.
  - by intros [= <-].
  - destruct (translate_message m out) as [mid|e] eqn:E; simpl; [|discriminate].
    apply IH. by eapply translate_message_uniform.
Qed.

(** The turn holds only function response parts. *)
Definition only_function_responses (t : turn) : bool :=
  forallb is_function_response (parts t).

(** C8. After any translated prefix of a conversation, the function
    response of a tool message is appended to the last upstream turn
    exactly when that turn is a [user] turn holding only function response
    parts; otherwise, and when there is no turn yet, it starts a new
    [user] turn. *)
Theorem tool_result_merge_rule (ms : list message) (out : list turn) (m : message) :
  openai_message_to_antigravity ms = Ok out ->
  handle_tool_call m out =
    match last out with
    | Some t =>
        if bool_decide (turn_role t = user) && only_function_responses t
        then alter_last (extend_parts [function_response_of m out]) out
        else out ++ [{| turn_role := user;
                        parts := [function_response_of m out] |}]
    | None => out ++ [{| turn_role := user;
                         parts := [function_response_of m out] |}]
    end.
Proof.
  intros Hrun.
  assert (Hout : Forall uniform out).
  { eapply translate_messages_uniform; [|exact Hrun]. constructor. }
  unfold handle_tool_call, only_function_responses.
  destruct (last out) as [t|] eqn:Hlast; [|reflexivity].
  case_bool_decide as Hrole; simpl; [|reflexivity].
  assert (Ht : uniform t).
  { apply last_Some in Hlast as [pre ->].
    apply Forall_app in Hout as [_ Ht]. by inversion Ht. }
  rewrite (Ht Hrole). reflexivity.
Qed.

(** **** Further properties of the translator *)

Lemma role_cases (m : message) :
  (String.eqb (role m) "user" || String.eqb (role m) "system" = true /\
   String.eqb (role m) "assistant" = false /\ String.eqb (role m) "tool" = false) \/
  (String.eqb (role m) "user" || String.eqb (role m) "system" = false /\
   String.eqb (role m) "assistant" = true /\ String.eqb (role m) "tool" = false) \/
  (String.eqb (role m) "user" || String.eqb (role m) "system" = false /\
   String.eqb (role m) "assistant" = false).
Proof.
  destruct (String.eqb (role m) "user") eqn:Hu.
  { apply String.eqb_eq in Hu. rewrite Hu. by left. }
  destruct (String.eqb (role m) "system") eqn:Hs.
  { apply String.eqb_eq in Hs. rewrite Hs. by left. }
  destruct (String.eqb (role m) "assistant") eqn:Ha.
  { apply String.eqb_eq in Ha. rewrite Ha. right. by left. }
  right. by right.
Qed.






Lemma alter_last_length {A} (f : A -> A) (l : list A) :
  length (alter_last f l) = length l.
Proof.
  destruct l as [|x pre _] using rev_ind; [reflexivity|].
  by rewrite alter_last_snoc, !length_app.
Qed.

Lemma translate_message_turns (m : message) (out out' : list turn) :
  translate_message m out = Ok out' ->
  Forall (fun t => parts t <> []) out ->
  Forall (fun t => parts t <> []) out' /\ length out' <= S (length out).
Proof.
  intros Hrun Hout. unfold translate_message in Hrun.
  destruct (_ || _).
  { injection Hrun as <-. unfold handle_user_message. split.
    - apply Forall_app. split; [assumption|]. by repeat constructor.
    - rewrite length_app. simpl. lia. }
  destruct (String.eqb (role m) "assistant").
  { unfold handle_assistant_message in Hrun.
    destruct (has_content m) as [hc|e]; simpl in Hrun; [|discriminate].
    destruct (match last out with Some _ => _ | None => false end).
    - injection Hrun as <-. split; [|rewrite alter_last_length; lia].
      apply alter_last_Forall; [assumption|].
      intros x Hx. simpl. intros Hnil. apply app_eq_nil in Hnil as [Hnil _].
      apply last_Some in Hx as [pre ->].
      apply Forall_app in Hout as [_ Hx]. by inversion Hx.
    - destruct (_ ++ to_function_calls m) as [|p ps] eqn:E.
      + injection Hrun as <-. split; [assumption|lia].
      + injection Hrun as <-. split; [|rewrite length_app; simpl; lia].
        apply Forall_app. split; [assumption|]. by repeat constructor. }
  destruct (String.eqb (role m) "tool").
  - injection Hrun as <-.
    destruct (handle_tool_call_shape m out) as (pre & ps & -> & Hshape).
    split.
    + apply Forall_app. split.
      * destruct Hshape as [[-> _]| ->]; [assumption|].
        by apply Forall_app in Hout as [Hpre _].
      * repeat constructor. simpl. by destruct ps.
    + destruct Hshape as [[-> _]| ->]; rewrite !length_app; simpl; lia.
  - injection Hrun as <-. split; [assumption|lia].
Qed.

Lemma translate_messages_turns (ms : list message) (out0 out : list turn) :
  translate_messages ms out0 = Ok out ->
  Forall (fun t => parts t <> []) out0 ->
  Forall (fun t => parts t <> []) out /\ length out <= length out0 + length ms.
Proof.
  revert out0. induction ms as [|m ms IH]; intros out0; simpl.
  - intros [= <-] H. split; [assumption|lia].
  - destruct (translate_message m out0) as [mid|e] eqn:E; simpl; [|discriminate].
    intros Hrun Hout0.
    destruct (translate_message_turns _ _ _ E Hout0) as [Hmid Hlen].
    destruct (IH _ Hrun Hmid) as [Hout Hlen']. split; [assumption|lia].
Qed.

(** X7. A translated conversation has at most as many turns as the
    conversation has messages, and none of its turns is without parts. *)
Theorem no_empty_turn (ms : list message) (out : list turn) :
  openai_message_to_antigravity ms = Ok out ->
  Forall (fun t => parts t <> []) out /\ length out <= length ms.
Proof.
  intros H. apply translate_messages_turns in H; [|constructor]. exact H.
Qed.

(** A message that leaves no trace upstream: a role other than the four
    handled, or an assistant message with neither tool calls nor text. *)
Definition droppable (m : message) : bool :=
  negb (String.eqb (role m) "user" || String.eqb (role m) "system") &&
  if String.eqb (role m) "assistant"
  then negb (has_tool_calls m) &&
       match has_content m with Ok false => true | _ => false end
  else negb (String.eqb (role m) "tool").

Lemma translate_message_droppable (m : message) (out : list turn) :
  droppable m = true -> translate_message m out = Ok out.
Proof.
  unfold droppable, translate_message. destruct (_ || _); [discriminate|].
  simpl. destruct (String.eqb (role m) "assistant").
  - unfold handle_assistant_message, to_function_calls.
    destruct (has_tool_calls m); [discriminate|]. simpl.
    destruct (has_content m) as [[]|e]; try discriminate. intros _. simpl.
    destruct (last out) as [t|]; simpl; [|reflexivity].
    by rewrite andb_false_r.
  - by destruct (String.eqb (role m) "tool").
Qed.

(** X8. Messages with an unknown role and assistant messages with neither
    tool calls nor text other than whitespace are dropped silently: the
    translation is that of the conversation without them. *)
Theorem droppable_messages_ignored (ms : list message) (out0 : list turn) :
  translate_messages (List.filter (fun m => negb (droppable m)) ms) out0 =
  translate_messages ms out0.
Proof.
  revert out0. induction ms as [|m ms IH]; intros out0; [reflexivity|].
  cbn [List.filter]. destruct (droppable m) eqn:Hd; cbn [negb translate_messages].
  - rewrite (translate_message_droppable m out0 Hd). simpl. apply IH.
  - destruct (translate_message m out0); simpl; [apply IH|reflexivity].
Qed.

Definition is_function_call (p : part) : bool :=
  match p with
  | functionCall _ _ _ => true
  | _ => false
  end.

(** The function calls of an upstream conversation, in order. *)
Definition function_calls (out : list turn) : list part :=
  List.filter is_function_call (flat_map parts out).

(** The function calls a message asks for. *)
Definition requested (m : message) : list part :=
  if String.eqb (role m) "assistant" then to_function_calls m else [].

(** The id and the output of a function response. *)
Definition response_key (p : part) : option (option string * content) :=
  match p with
  | functionResponse call_id _ output => Some (call_id, output)
  | _ => None
  end.

(** The function responses of an upstream conversation, in order. *)
Definition function_responses (out : list turn)
  : list (option string * content) :=
  omap response_key (flat_map parts out).

(** The tool result a message reports. *)
Definition answered (m : message) : list (option string * content) :=
  if String.eqb (role m) "tool" then [(tool_call_id m, msg_content m)] else [].

Lemma flat_map_alter_last (new : list part) (out : list turn) :
  out <> [] ->
  flat_map parts (alter_last (extend_parts new) out) = flat_map parts out ++ new.
Proof.
  destruct out as [|t pre _] using rev_ind; [done|]. intros _.
  rewrite alter_last_snoc, !flat_map_app. simpl.
  by rewrite !app_nil_r, app_assoc.
Qed.

Lemma filter_function_calls (m : message) :
  List.filter is_function_call (to_function_calls m) = to_function_calls m.
Proof.
  unfold to_function_calls. destruct (has_tool_calls m); [|reflexivity].
  induction (default [] (tool_calls m)) as [|tc tcs IH]; [reflexivity|].
  simpl. by rewrite IH.
Qed.

Lemma images_flat (c : content) :
  List.filter is_function_call (ex_images (extract_images_from_content c)) = [] /\
  omap response_key (ex_images (extract_images_from_content c)) = [].
Proof.
  assert (Hstep : forall items acc,
    List.filter is_function_call (ex_images acc) = [] /\
    omap response_key (ex_images acc) = [] ->
    List.filter is_function_call (ex_images (fold_left extract_item items acc)) = [] /\
    omap response_key (ex_images (fold_left extract_item items acc)) = []).
  { induction items as [|item items IH]; intros acc [Hf Hr]; [by split|].
    simpl. apply IH. destruct item as [t|url|]; simpl; try by split.
    destruct (match_data_uri _) as [[fmt payload]|]; simpl; [|by split].
    rewrite List.filter_app, omap_app, Hf, Hr. by split. }
  destruct c as [|str|items]; simpl; try by split.
  by apply Hstep.
Qed.

Lemma snoc_calls (out : list turn) (t : turn) :
  function_calls (out ++ [t]) =
    function_calls out ++ List.filter is_function_call (parts t) /\
  function_responses (out ++ [t]) =
    function_responses out ++ omap response_key (parts t).
Proof.
  unfold function_calls, function_responses.
  rewrite flat_map_app, List.filter_app, omap_app. simpl flat_map.
  by rewrite app_nil_r.
Qed.

Lemma extend_calls (new : list part) (out : list turn) :
  out <> [] ->
  function_calls (alter_last (extend_parts new) out) =
    function_calls out ++ List.filter is_function_call new /\
  function_responses (alter_last (extend_parts new) out) =
    function_responses out ++ omap response_key new.
Proof.
  intros Hne. unfold function_calls, function_responses.
  by rewrite flat_map_alter_last, List.filter_app, omap_app.
Qed.

Lemma user_parts (c : content) :
  List.filter is_function_call
    (text (ex_text (extract_images_from_content c)) ::
     ex_images (extract_images_from_content c)) = [] /\
  omap response_key
    (text (ex_text (extract_images_from_content c)) ::
     ex_images (extract_images_from_content c)) = [].
Proof. simpl. apply images_flat. Qed.

Lemma assistant_parts (m : message) (hc : bool) :
  List.filter is_function_call
    ((if hc then match msg_content m with StrContent s => [text s] | _ => [] end
      else []) ++ to_function_calls m) = to_function_calls m /\
  omap response_key
    ((if hc then match msg_content m with StrContent s => [text s] | _ => [] end
      else []) ++ to_function_calls m) = [].
Proof.
  assert (Hnone : omap response_key (to_function_calls m) = []).
  { unfold to_function_calls. destruct (has_tool_calls m); [|reflexivity].
    by induction (default [] (tool_calls m)). }
  rewrite List.filter_app, omap_app, filter_function_calls, Hnone.
  destruct hc; [|by split]. destruct (msg_content m); by split.
Qed.

Lemma translate_message_calls (m : message) (out out' : list turn) :
  translate_message m out = Ok out' ->
  function_calls out' = function_calls out ++ requested m /\
  function_responses out' = function_responses out ++ answered m.
Proof.
  unfold translate_message, requested, answered.
  destruct (role_cases m) as [(-> & -> & ->)|[(-> & -> & ->)|(-> & -> )]].
  - intros [= <-]. unfold handle_user_message.
    destruct (snoc_calls out
                {| turn_role := user;
                   parts := text (ex_text (extract_images_from_content (msg_content m)))
                            :: ex_images (extract_images_from_content (msg_content m)) |})
      as [-> ->].
    cbn [parts]. by destruct (user_parts (msg_content m)) as [-> ->].
  - unfold handle_assistant_message.
    destruct (has_content m) as [hc|e] eqn:Hc; simpl; [|discriminate].
    destruct (assistant_parts m hc) as [Hf Hr].
    destruct (match last out with Some _ => _ | None => false end) eqn:Hmerge.
    + intros [= <-].
      destruct (extend_calls (to_function_calls m) out) as [-> ->].
      { intros ->. simpl in Hmerge. discriminate. }
      rewrite filter_function_calls.
      destruct (assistant_parts m false) as [_ Hnone]. simpl in Hnone.
      by rewrite Hnone.
    + destruct (_ ++ to_function_calls m) as [|p ps] eqn:E.
      * intros [= <-]. simpl in Hf. by rewrite <- Hf, !app_nil_r.
      * intros [= <-].
        destruct (snoc_calls out {| turn_role := model; parts := p :: ps |})
          as [-> ->].
        cbn [parts]. by rewrite Hf, Hr.
  - destruct (String.eqb (role m) "tool").
    + intros [= <-]. unfold handle_tool_call.
      destruct (match last out with Some _ => _ | None => false end) eqn:Hmerge.
      * destruct (extend_calls [function_response_of m out] out) as [-> ->].
        { intros ->. simpl in Hmerge. discriminate. }
        by split.
      * destruct (snoc_calls out
                    {| turn_role := user;
                       parts := [function_response_of m out] |}) as [-> ->].
        by split.
    + intros [= <-]. by rewrite !app_nil_r.
Qed.

Lemma translate_messages_calls (ms : list message) (out0 out : list turn) :
  translate_messages ms out0 = Ok out ->
  function_calls out = function_calls out0 ++ flat_map requested ms /\
  function_responses out = function_responses out0 ++ flat_map answered ms.
Proof.
  revert out0. induction ms as [|m ms IH]; intros out0; simpl.
  - intros [= <-]. by rewrite !app_nil_r.
  - destruct (translate_message m out0) as [mid|e] eqn:E; simpl; [|discriminate].
    intros Hrun. apply translate_message_calls in E as [Hc Hr].
    apply IH in Hrun as [-> ->]. by rewrite Hc, Hr, <- !app_assoc.
Qed.

(** X9. The translation keeps every tool call: the function call parts of
    the upstream conversation, read in order, are the tool calls of the
    assistant messages in the order of the conversation, none lost,
    repeated or moved. *)
Theorem function_calls_conserved (ms : list message) (out : list turn) :
  openai_message_to_antigravity ms = Ok out ->
  function_calls out = flat_map requested ms.
Proof. intros H. by apply translate_messages_calls in H as [-> _]. Qed.

(** X10. The translation keeps every tool result: the function response
    parts of the upstream conversation, read in order, carry the ids and
    the outputs of the tool messages in the order of the conversation. *)
Theorem function_responses_conserved (ms : list message) (out : list turn) :
  openai_message_to_antigravity ms = Ok out ->
  function_responses out = flat_map answered ms.
Proof. intros H. by apply translate_messages_calls in H as [_ ->]. Qed.

(** A [user] turn that holds a function response. *)
Definition is_response_turn (t : turn) : bool :=
  bool_decide (turn_role t = user) && existsb is_function_response (parts t).

(** No two turns in a row are response turns. *)
Fixpoint no_adjacent_responses (out : list turn) : bool :=
  match out with
  | t1 :: rest =>
      match rest with
      | t2 :: _ =>
          negb (is_response_turn t1 && is_response_turn t2) &&
          no_adjacent_responses rest
      | [] => true
      end
  | [] => true
  end.

Lemma no_adjacent_snoc (out : list turn) (t : turn) :
  no_adjacent_responses (out ++ [t]) =
  no_adjacent_responses out &&
  negb (match last out with
        | Some x => is_response_turn x && is_response_turn t
        | None => false
        end).
Proof.
  induction out as [|x out IH]; [reflexivity|].
  destruct out as [|y out].
  - simpl. by rewrite andb_true_r.
  - change ((x :: y :: out) ++ [t]) with (x :: ((y :: out) ++ [t])).
    change (last (x :: y :: out)) with (last (y :: out)).
    cbn [no_adjacent_responses app]. cbn [no_adjacent_responses app] in IH.
    rewrite IH. by rewrite andb_assoc.
Qed.

Lemma no_adjacent_alter_last (f : turn -> turn) (out : list turn) :
  (forall x, last out = Some x -> is_response_turn (f x) = is_response_turn x) ->
  no_adjacent_responses (alter_last f out) = no_adjacent_responses out.
Proof.
  destruct out as [|x pre _] using rev_ind; [reflexivity|]. intros Hf.
  rewrite alter_last_snoc, !no_adjacent_snoc, Hf; [reflexivity|apply last_snoc].
Qed.

Lemma translate_message_no_adjacent (m : message) (out out' : list turn) :
  translate_message m out = Ok out' ->
  no_adjacent_responses out = true -> no_adjacent_responses out' = true.
Proof.
  intros Hrun Hout. unfold translate_message in Hrun.
  destruct (_ || _).
  { injection Hrun as <-. unfold handle_user_message.
    rewrite no_adjacent_snoc, Hout. unfold is_response_turn at 2. simpl.
    rewrite extract_images_only_images. simpl.
    destruct (last out); by rewrite ?andb_false_r. }
  destruct (String.eqb (role m) "assistant").
  { unfold handle_assistant_message in Hrun.
    destruct (has_content m) as [hc|e]; simpl in Hrun; [|discriminate].
    destruct (match last out with Some _ => _ | None => false end) eqn:Hmerge.
    - injection Hrun as <-. rewrite no_adjacent_alter_last; [assumption|].
      intros x Hx. rewrite Hx in Hmerge.
      apply andb_prop in Hmerge as [Hmerge _].
      apply andb_prop in Hmerge as [Hmerge _].
      apply bool_decide_eq_true in Hmerge.
      unfold is_response_turn. simpl. rewrite Hmerge. reflexivity.
    - destruct (_ ++ to_function_calls m) as [|p ps].
      + by injection Hrun as <-.
      + injection Hrun as <-. rewrite no_adjacent_snoc, Hout.
        unfold is_response_turn at 2. simpl.
        destruct (last out); by rewrite ?andb_false_r. }
  destruct (String.eqb (role m) "tool"); [|by injection Hrun as <-].
  injection Hrun as <-. unfold handle_tool_call.
  destruct (last out) as [x|] eqn:Hlast.
  - fold (is_response_turn x). destruct (is_response_turn x) eqn:Hx.
    + rewrite no_adjacent_alter_last; [assumption|].
      intros y Hy. rewrite Hlast in Hy. injection Hy as <-. rewrite Hx.
      unfold is_response_turn in *. simpl.
      apply andb_prop in Hx as [-> Hany].
      by rewrite existsb_app, Hany.
    + by rewrite no_adjacent_snoc, Hout, Hlast, Hx.
  - by rewrite no_adjacent_snoc, Hout, Hlast.
Qed.

Lemma translate_messages_no_adjacent (ms : list message) (out0 out : list turn) :
  translate_messages ms out0 = Ok out ->
  no_adjacent_responses out0 = true -> no_adjacent_responses out = true.
Proof.
  revert out0. induction ms as [|m ms IH]; intros out0; simpl.
  - by intros [= <-].
  - destruct (translate_message m out0) as [mid|e] eqn:E; simpl; [|discriminate].
    intros Hrun Hout0. apply (IH mid Hrun).
    by apply (translate_message_no_adjacent m out0).
Qed.

(** X11. A translated conversation never has two [user] turns of function
    responses in a row: tool results that follow one another always share
    one turn. *)
Theorem responses_never_adjacent (ms : list message) (out : list turn) :
  openai_message_to_antigravity ms = Ok out ->
  no_adjacent_responses out = true.
Proof. intros H. by apply (translate_messages_no_adjacent ms [] out). Qed.

End Translator.

(** *** Embedded images *)

Lemma append_cons (c : Ascii.ascii) (s t : string) :
  String c s +:+ t = String c (s +:+ t).
Proof. reflexivity. Qed.

Lemma append_nil_r (s : string) : s +:+ "" = s.
Proof.
  induction s as [|c s IH]; [reflexivity|]. by rewrite append_cons, IH.
Qed.

Lemma append_assoc (s1 s2 s3 : string) :
  (s1 +:+ s2) +:+ s3 = s1 +:+ (s2 +:+ s3).
Proof.
  induction s1 as [|c s1 IH]; [reflexivity|]. by rewrite !append_cons, IH.
Qed.

Lemma prefix_split (p s : string) :
  String.prefix p s = true -> s = p +:+ str_drop (String.length p) s.
Proof.
  revert s. induction p as [|c p IH]; intros s.
  - by destruct s.
  - destruct s as [|c' s]; simpl; [discriminate|].
    destruct (Ascii.ascii_dec c c') as [<-|]; [|discriminate].
    intros H. by rewrite append_cons, <- (IH s H).
Qed.

Lemma prefix_app (p s : string) : String.prefix p (p +:+ s) = true.
Proof.
  induction p as [|c p IH]; [by destruct s|].
  rewrite append_cons. simpl. by destruct (Ascii.ascii_dec c c).
Qed.

Lemma str_drop_app (p s : string) : str_drop (String.length p) (p +:+ s) = s.
Proof. induction p as [|c p IH]; [reflexivity|]. by rewrite append_cons. Qed.

Fixpoint all_word (s : string) : bool :=
  match s with
  | String c s' => is_word c && all_word s'
  | "" => true
  end.

Definition starts_with_word (s : string) : bool :=
  match s with
  | String c _ => is_word c
  | "" => false
  end.

Lemma span_word_app (w rest : string) :
  all_word w = true -> starts_with_word rest = false ->
  span_word (w +:+ rest) = (w, rest).
Proof.
  intros Hw Hrest. induction w as [|c w IH].
  - change ("" +:+ rest) with rest.
    destruct rest as [|c rest]; [reflexivity|]. simpl in *. by rewrite Hrest.
  - simpl in Hw. apply andb_prop in Hw as [Hc Hw].
    rewrite append_cons. simpl. by rewrite Hc, (IH Hw).
Qed.

Lemma span_word_split (s w rest : string) :
  span_word s = (w, rest) ->
  s = w +:+ rest /\ all_word w = true /\ starts_with_word rest = false.
Proof.
  revert w rest. induction s as [|c s IH]; intros w rest; simpl.
  - intros [= <- <-]. by repeat split.
  - destruct (is_word c) eqn:Hc.
    + destruct (span_word s) as [w' rest'] eqn:E. intros [= <- <-].
      destruct (IH w' rest' eq_refl) as (-> & Hw & Hr).
      rewrite append_cons. simpl. rewrite Hc. by repeat split.
    + intros [= <- <-]. simpl. by rewrite Hc.
Qed.

Lemma chomp_id (s : string) : has_newline s = false -> chomp s = s.
Proof.
  induction s as [|c s IH]; [reflexivity|]. simpl.
  intros H. apply orb_false_elim in H as [Hc Hs].
  destruct s as [|c' s]; [by rewrite Hc|]. by rewrite (IH Hs).
Qed.

Lemma chomp_line_feed (s : string) :
  s <> "" -> has_newline s = false -> chomp (s +:+ LF) = s.
Proof.
  induction s as [|c s IH]; [done|]. intros _ H. simpl in H.
  apply orb_false_elim in H as [Hc Hs]. rewrite append_cons.
  destruct s as [|c' s]; [reflexivity|].
  rewrite append_cons in *.
  change (chomp (String c (String c' (s +:+ LF))))
    with (String c (chomp (String c' (s +:+ LF)))).
  rewrite IH; [reflexivity|done|assumption].
Qed.

Lemma chomp_split (s : string) : s = chomp s \/ s = chomp s +:+ LF.
Proof.
  induction s as [|c s IH]; [by left|].
  destruct s as [|c' s].
  - simpl. destruct (Nat.eqb (Ascii.nat_of_ascii c) 10) eqn:Hc; [|by left].
    right. apply Nat.eqb_eq in Hc. change ("" +:+ LF) with LF. unfold LF.
    by rewrite <- Hc, Ascii.ascii_nat_embedding.
  - change (chomp (String c (String c' s))) with (String c (chomp (String c' s))).
    destruct IH as [IH|IH]; [left|right]; rewrite ?append_cons; by rewrite <- IH.
Qed.

(** X12. The data URI reader accepts exactly [data:image/FMT;base64,DATA],
    with FMT a non-empty run of word characters and DATA non-empty and
    free of line feeds, optionally followed by one final line feed; it
    gives back FMT and DATA. *)
Theorem data_uri_round_trip (url fmt payload : string) :
  match_data_uri url = Some (fmt, payload) <->
  (fmt <> "" /\ all_word fmt = true /\
   payload <> "" /\ has_newline payload = false /\
   (url = "data:image/" +:+ fmt +:+ ";base64," +:+ payload \/
    url = "data:image/" +:+ fmt +:+ ";base64," +:+ payload +:+ LF)).
Proof.
  split.
  - unfold match_data_uri.
    destruct (String.prefix "data:image/" url) eqn:Hp; [|discriminate].
    apply prefix_split in Hp.
    destruct (span_word (str_drop 11 url)) as [w rest] eqn:Hspan.
    apply span_word_split in Hspan as (Hurl & Hw & _).
    destruct (String.eqb w "") eqn:Hwe; [discriminate|]. cbn [negb andb].
    destruct (String.prefix ";base64," rest) eqn:Hb; [|discriminate].
    apply prefix_split in Hb.
    destruct (String.eqb (chomp (str_drop 8 rest)) "") eqn:Hce; [discriminate|].
    destruct (has_newline (chomp (str_drop 8 rest))) eqn:Hn; [discriminate|].
    cbn [negb andb]. intros [= <- <-].
    apply String.eqb_neq in Hwe, Hce. repeat (split; [assumption|]).
    change (String.length "data:image/") with 11 in Hp.
    change (String.length ";base64,") with 8 in Hb.
    destruct (chomp_split (str_drop 8 rest)) as [Hc|Hc]; [left|right];
      rewrite Hp, Hurl, Hb at 1; rewrite Hc at 1; reflexivity.
  - intros (Hf & Hw & Hp & Hn & Hurl). unfold match_data_uri.
    assert (Hspan : forall tail,
      span_word (fmt +:+ ";base64," +:+ tail) = (fmt, ";base64," +:+ tail))
      by (intros tail; by apply span_word_app).
    apply String.eqb_neq in Hf.
    assert (Hpe : String.eqb payload "" = false) by (by apply String.eqb_neq).
    destruct Hurl as [-> | ->];
      rewrite prefix_app;
      rewrite (str_drop_app "data:image/"), Hspan, Hf; cbn [negb andb];
      rewrite prefix_app, (str_drop_app ";base64,").
    + by rewrite chomp_id, Hpe, Hn.
    + by rewrite chomp_line_feed, Hpe, Hn.
Qed.

(** The text of a segment. *)
Definition item_text (item : content_item) : string :=
  match item with
  | TextItem t => default "" t
  | _ => ""
  end.

(** The image of a segment, when it is an image with a well-formed URI. *)
Definition item_image (item : content_item) : option part :=
  match item with
  | ImageUrlItem url =>
      match match_data_uri (default "" url) with
      | Some (img_format, base64_data) =>
          Some (inlineData ("image/" +:+ img_format) base64_data)
      | None => None
      end
  | _ => None
  end.

Definition join (l : list string) : string := fold_right String.append "" l.

Lemma extract_items_fold (items : list content_item) (acc : extracted) :
  fold_left extract_item items acc =
  {| ex_text := ex_text acc +:+ join (map item_text items);
     ex_images := ex_images acc ++ omap item_image items |}.
Proof.
  revert acc. induction items as [|item items IH]; intros acc.
  - simpl. rewrite append_nil_r, app_nil_r. by destruct acc.
  - cbn [fold_left]. rewrite IH. simpl join.
    destruct item as [t|url|]; simpl.
    + by rewrite append_assoc.
    + destruct (match_data_uri (default "" url)) as [[f d]|]; simpl.
      * by rewrite <- app_assoc.
      * reflexivity.
    + reflexivity.
Qed.

(** X13. A user or system message with a list of segments becomes one new
    [user] turn: first one text part holding the texts of the segments
    joined in order, then one image part per image segment with a
    well-formed data URI, in order; image segments with any other URI and
    segments of other types leave nothing. *)
Theorem user_message_parts (m : message) (items : list content_item)
    (out : list turn) :
  msg_content m = ListContent items ->
  handle_user_message (extract_images_from_content (msg_content m)) out =
  out ++ [{| turn_role := user;
             parts := text (join (map item_text items)) ::
                      omap item_image items |}].
Proof.
  intros ->. unfold handle_user_message, extract_images_from_content.
  by rewrite extract_items_fold.
Qed.

(** *** A concrete conversation *)

Definition ask_lookup : message :=
  {| role := "assistant"; msg_content := NoContent;
     tool_calls := Some [{| id := Some "c1"; name := "lookup";
                            arguments := JStr (dq "{'q': 1}") |}];
     tool_call_id := None |}.

Definition ask_fetch : message :=
  {| role := "assistant"; msg_content := StrContent "  ";
     tool_calls := Some [{| id := Some "c2"; name := "fetch";
                            arguments := JStr "plain words" |}];
     tool_call_id := None |}.

Definition result_of (call_id : string) (output : string) : message :=
  {| role := "tool"; msg_content := StrContent output;
     tool_calls := None; tool_call_id := Some call_id |}.

Definition lookup_call : part :=
  functionCall (Some "c1") "lookup" (JObj [("q", JInt 1)]).

Definition fetch_call : part :=
  functionCall (Some "c2") "fetch" (JObj [("query", JStr "plain words")]).

Lemma consecutive_tool_call_turns_merge_witness :
  (role ask_lookup = "assistant" /\ has_content ask_lookup = Ok false /\
   role ask_fetch = "assistant" /\ has_content ask_fetch = Ok false) /\
  openai_message_to_antigravity loads_subset [ask_lookup; ask_fetch] =
    Ok [{| turn_role := model;
           parts := [functionCall (Some "c1") "lookup" (JObj [("q", JInt 1)]);
                     functionCall (Some "c2") "fetch"
                       (JObj [("query", JStr "plain words")])] |}].
Proof.
  split; [repeat split|].
  exact (proj1 (consecutive_tool_call_turns_merge loads_subset
                  ask_lookup ask_fetch _ _
                  eq_refl eq_refl ltac:(discriminate) eq_refl
                  eq_refl eq_refl ltac:(discriminate) eq_refl)).
Defined.

(** The id "c1" used twice: first for a call of "lookup", then, after a
    user turn, for a call of "other". *)
Definition other_call : part := functionCall (Some "c1") "other" (JObj []).

Definition ask_other : message :=
  {| role := "assistant"; msg_content := NoContent;
     tool_calls := Some [{| id := Some "c1"; name := "other";
                            arguments := JStr "{}" |}];
     tool_call_id := None |}.

Definition ask_again : message :=
  {| role := "user"; msg_content := StrContent "again";
     tool_calls := None; tool_call_id := None |}.

Definition reused_upstream : list turn :=
  [{| turn_role := model; parts := [lookup_call] |};
   {| turn_role := user; parts := [text "again"] |};
   {| turn_role := model; parts := [other_call] |}].

(** The pairing does not hold of every conversation: here the upstream
    conversation holds a [model] turn with the call of id "c1" and name
    "lookup", and the tool message with the id "c1" that follows is given
    the name "other", that of the later call with the same id. *)
Lemma tool_result_pairing_counterexample :
  openai_message_to_antigravity loads_subset [ask_lookup; ask_again; ask_other] =
    Ok reused_upstream /\
  {| turn_role := model; parts := [lookup_call] |} ∈ reused_upstream /\
  openai_message_to_antigravity loads_subset
    [ask_lookup; ask_again; ask_other; result_of "c1" "42"] =
    Ok (reused_upstream ++
        [{| turn_role := user;
            parts := [functionResponse (Some "c1") "other" (StrContent "42")] |}]) /\
  ~ exists pre ps,
      handle_tool_call (result_of "c1" "42") reused_upstream =
      pre ++ [{| turn_role := user;
                 parts := ps ++ [functionResponse (Some "c1") "lookup"
                                   (StrContent "42")] |}].
Proof.
  split; [vm_compute; reflexivity|]. split; [by left|].
  split; [vm_compute; reflexivity|].
  intros (pre & ps & H).
  change (handle_tool_call (result_of "c1" "42") reused_upstream)
    with (reused_upstream ++
          [{| turn_role := user;
              parts := [] ++ [functionResponse (Some "c1") "other"
                                (StrContent "42")] |}]) in H.
  apply app_inj_tail in H as [_ H]. injection H as H.
  apply (app_inj_tail [] ps) in H as [_ H]. discriminate H.
Qed.

(** The nearest call decides: after an earlier call of "other" under the
    same id the result is paired with "lookup", and after a later one
    with "other". *)
Lemma tool_result_pairing_witness :
  (exists pre' ps,
     handle_tool_call (result_of "c1" "42")
       ([{| turn_role := model; parts := [other_call] |};
         {| turn_role := user; parts := [text "again"] |}] ++
        {| turn_role := model; parts := [fetch_call; lookup_call] |} :: []) =
     pre' ++ [{| turn_role := user;
                 parts := ps ++ [functionResponse (Some "c1") "lookup"
                                   (StrContent "42")] |}] /\
     ([{| turn_role := model; parts := [other_call] |};
       {| turn_role := user; parts := [text "again"] |}] ++
      {| turn_role := model; parts := [fetch_call; lookup_call] |} :: [] = pre' /\
      ps = [] \/
      [{| turn_role := model; parts := [other_call] |};
       {| turn_role := user; parts := [text "again"] |}] ++
      {| turn_role := model; parts := [fetch_call; lookup_call] |} :: [] =
      pre' ++ [{| turn_role := user; parts := ps |}])) /\
  handle_tool_call (result_of "c1" "42")
    [{| turn_role := model; parts := [other_call] |};
     {| turn_role := user; parts := [text "again"] |};
     {| turn_role := model; parts := [fetch_call; lookup_call] |}] =
  [{| turn_role := model; parts := [other_call] |};
   {| turn_role := user; parts := [text "again"] |};
   {| turn_role := model; parts := [fetch_call; lookup_call] |};
   {| turn_role := user;
      parts := [functionResponse (Some "c1") "lookup" (StrContent "42")] |}].
Proof.
  split; [|vm_compute; reflexivity].
  apply (tool_result_pairing
           [{| turn_role := model; parts := [other_call] |};
            {| turn_role := user; parts := [text "again"] |}] []
           {| turn_role := model; parts := [fetch_call; lookup_call] |}
           [fetch_call] [] (JObj [("q", JInt 1)])
           (result_of "c1" "42") (Some "c1") "lookup").
  - reflexivity.
  - discriminate.
  - reflexivity.
  - reflexivity.
  - intros f a Hin. apply list_elem_of_singleton in Hin. discriminate Hin.
  - intros t' f a Hin. by apply elem_of_nil in Hin.
Defined.

Lemma tool_result_merge_rule_witness :
  openai_message_to_antigravity loads_subset
    [ask_lookup; ask_fetch; result_of "c1" "42"] =
    Ok [{| turn_role := model; parts := [lookup_call; fetch_call] |};
        {| turn_role := user;
           parts := [functionResponse (Some "c1") "lookup" (StrContent "42")] |}] /\
  handle_tool_call (result_of "c2" "page")
    [{| turn_role := model; parts := [lookup_call; fetch_call] |};
     {| turn_role := user;
        parts := [functionResponse (Some "c1") "lookup" (StrContent "42")] |}] =
    [{| turn_role := model; parts := [lookup_call; fetch_call] |};
     {| turn_role := user;
        parts := [functionResponse (Some "c1") "lookup" (StrContent "42");
                  functionResponse (Some "c2") "fetch" (StrContent "page")] |}].
Proof.
  assert (H : openai_message_to_antigravity loads_subset
                [ask_lookup; ask_fetch; result_of "c1" "42"] =
              Ok [{| turn_role := model; parts := [lookup_call; fetch_call] |};
                  {| turn_role := user;
                     parts := [functionResponse (Some "c1") "lookup"
                                 (StrContent "42")] |}])
    by (vm_compute; reflexivity).
  split; [exact H|].
  rewrite (tool_result_merge_rule loads_subset _ _ (result_of "c2" "page") H).
  reflexivity.
Defined.

Lemma unmatched_tool_result_kept_witness :
  exists pre ps,
    translate_message loads_subset (result_of "zz" "late")
      [{| turn_role := model; parts := [lookup_call] |}] =
      Ok (pre ++ [{| turn_role := user;
                     parts := ps ++ [functionResponse (Some "zz") ""
                                       (StrContent "late")] |}]) /\
    ([{| turn_role := model; parts := [lookup_call] |}] = pre /\ ps = [] \/
     [{| turn_role := model; parts := [lookup_call] |}] =
       pre ++ [{| turn_role := user; parts := ps |}]).
Proof.
  apply (unmatched_tool_result_kept loads_subset
           [{| turn_role := model; parts := [lookup_call] |}]
           (result_of "zz" "late")).
  - reflexivity.
  - intros t f a Hin _ Hpart.
    apply list_elem_of_singleton in Hin. subst t. simpl in Hpart.
    apply list_elem_of_singleton in Hpart. discriminate Hpart.
Defined.

Definition picture_message : message :=
  {| role := "user";
     msg_content :=
       ListContent [TextItem (Some "see ");
                    ImageUrlItem (Some "data:image/png;base64,QUJD");
                    ImageUrlItem (Some "http://example.org/a.png");
                    TextItem (Some "this")];
     tool_calls := None; tool_call_id := None |}.

Definition closing_message : message :=
  {| role := "assistant"; msg_content := StrContent "done";
     tool_calls := None; tool_call_id := None |}.

Definition sample_conversation : list message :=
  [picture_message; ask_lookup; ask_fetch; result_of "c2" "page";
   result_of "c1" "42"; closing_message].

Definition sample_upstream : list turn :=
  [{| turn_role := user;
      parts := [text "see this"; inlineData "image/png" "QUJD"] |};
   {| turn_role := model; parts := [lookup_call; fetch_call] |};
   {| turn_role := user;
      parts := [functionResponse (Some "c2") "fetch" (StrContent "page");
                functionResponse (Some "c1") "lookup" (StrContent "42")] |};
   {| turn_role := model; parts := [text "done"] |}].

Lemma sample_translation :
  openai_message_to_antigravity loads_subset sample_conversation =
  Ok sample_upstream.
Proof. vm_compute. reflexivity. Defined.

Lemma no_empty_turn_witness :
  openai_message_to_antigravity loads_subset sample_conversation =
    Ok sample_upstream /\
  Forall (fun t => parts t <> []) sample_upstream /\
  length sample_upstream <= length sample_conversation.
Proof.
  split; [exact sample_translation|].
  exact (no_empty_turn loads_subset _ _ sample_translation).
Defined.

Lemma function_calls_conserved_witness :
  openai_message_to_antigravity loads_subset sample_conversation =
    Ok sample_upstream /\
  function_calls sample_upstream =
  flat_map (requested loads_subset) sample_conversation.
Proof.
  split; [exact sample_translation|].
  exact (function_calls_conserved loads_subset _ _ sample_translation).
Defined.

Lemma function_responses_conserved_witness :
  openai_message_to_antigravity loads_subset sample_conversation =
    Ok sample_upstream /\
  function_responses sample_upstream = flat_map answered sample_conversation.
Proof.
  split; [exact sample_translation|].
  exact (function_responses_conserved loads_subset _ _ sample_translation).
Defined.

Lemma responses_never_adjacent_witness :
  openai_message_to_antigravity loads_subset sample_conversation =
    Ok sample_upstream /\
  no_adjacent_responses sample_upstream = true.
Proof.
  split; [exact sample_translation|].
  exact (responses_never_adjacent loads_subset _ _ sample_translation).
Defined.

Lemma data_uri_round_trip_witness :
  match_data_uri "data:image/png;base64,QUJD" = Some ("png", "QUJD") /\
  match_data_uri ("data:image/png;base64,QUJD" +:+ LF) = Some ("png", "QUJD").
Proof.
  split.
  - apply (proj2 (data_uri_round_trip _ "png" "QUJD")).
    repeat (split; [done|]). by left.
  - apply (proj2 (data_uri_round_trip _ "png" "QUJD")).
    repeat (split; [done|]). by right.
Defined.

Lemma user_message_parts_witness :
  msg_content picture_message =
    ListContent [TextItem (Some "see ");
                 ImageUrlItem (Some "data:image/png;base64,QUJD");
                 ImageUrlItem (Some "http://example.org/a.png");
                 TextItem (Some "this")] /\
  handle_user_message
    (extract_images_from_content (msg_content picture_message)) [] =
  [] ++ [{| turn_role := user;
            parts :=
              text (join (map item_text
                            [TextItem (Some "see ");
                             ImageUrlItem (Some "data:image/png;base64,QUJD");
                             ImageUrlItem (Some "http://example.org/a.png");
                             TextItem (Some "this")])) ::
              omap item_image
                [TextItem (Some "see ");
                 ImageUrlItem (Some "data:image/png;base64,QUJD");
                 ImageUrlItem (Some "http://example.org/a.png");
                 TextItem (Some "this")] |}].
Proof.
  split; [reflexivity|].
  exact (user_message_parts picture_message _ [] eq_refl).
Defined.

(** C4 (the code does otherwise). The request id is the same constant
    text at every call, whatever the UUID source holds. *)
Theorem generate_request_id_constant (uuid4_hex uuid4_hex' : string) :
  generate_request_id uuid4_hex = "req_{uuid.uuid4().hex}" /\
  generate_request_id uuid4_hex = generate_request_id uuid4_hex'.
Proof. split; reflexivity. Qed.

End Utils.

(** ** token_manager.py: credential rotation *)

Module TokenManager.

(** One record of the accounts file.  [expires_in] and [timestamp] are
    whole seconds and may be absent; [disabled] is the truth value of the
    optional field. *)
Record account : Type := {
  access_token : string;
  refresh_token : option string;
  expires_in : option Z;
  timestamp : option Z;
  disabled : bool
}.

(** What the POST to the token endpoint comes to: a
    [requests.exceptions.RequestException] (its text, and the text of its
    response when it has one), or a decoded body with its optional
    ['access_token'] and ['expires_in']. *)
Inductive post_outcome : Type :=
| RequestException (msg : string) (response_text : option string)
| Responded (new_access_token : option string) (new_expires_in : option Z).

Inductive log_record : Type :=
| Info (msg : string)
| Warning (msg : string)
| Error (msg : string).

(** The accounts file as [open] and [json.load] find it: the list of
    records it decodes to (a file that does not exist reads as the empty
    list), or a file that exists but cannot be opened or decoded, with
    the text of the error. *)
Inductive file : Type :=
| Stored (accounts : list account)
| Damaged (detail : string).

(** What [_write_accounts] meets.  [os.makedirs] or [open] raises and the
    file is as it was; or the file is opened with mode ['w'], which
    empties it, and then [json.dump] (or the closing of the file) raises:
    [remains] is what the file is afterwards, as a rule [Damaged], since a
    text cut short does not decode; or the whole list is written. *)
Inductive write_outcome : Type :=
| Written
| Refused (detail : string)
| Broken (detail : string) (remains : file).

(** The manager and its surroundings: the accounts file, the rotation
    cursor, the number of times the clock, the token endpoint and the
    writing of the file have been consulted so far, and the log. *)
Record state : Type := {
  on_disk : file;
  current_token_index : nat;
  calls : nat;
  log : list log_record
}.

(** The pool: the records of the accounts file, none when the file is
    missing or damaged. *)
Definition accounts_file (st : state) : list account :=
  match on_disk st with
  | Stored accounts => accounts
  | Damaged _ => []
  end.

Definition add_log (r : log_record) (st : state) : state :=
  {| on_disk := on_disk st;
     current_token_index := current_token_index st;
     calls := calls st;
     log := log st ++ [r] |}.

Definition tick (st : state) : state :=
  {| on_disk := on_disk st;
     current_token_index := current_token_index st;
     calls := S (calls st);
     log := log st |}.

Definition set_index (i : nat) (st : state) : state :=
  {| on_disk := on_disk st;
     current_token_index := i;
     calls := calls st;
     log := log st |}.

Definition set_file (content : file) (st : state) : state :=
  {| on_disk := content;
     current_token_index := current_token_index st;
     calls := calls st;
     log := log st |}.

(** [int(x)]: truncation toward zero. *)
Definition py_int (x : Q) : Z := Z.quot (Qnum x) (Zpos (Qden x)).

(** [(timestamp + expires_in - 60) < now], absent fields counting as 0.
    A clock reading is a rational number, as every float is. *)
Definition is_expired (a : account) (now : Q) : bool :=
  match Qcompare
          (inject_Z (default 0%Z (timestamp a) + default 0%Z (expires_in a) - 60))
          now with
  | Lt => true
  | _ => false
  end.

(** Seconds of life left at the reading [now]. *)
Definition remaining (a : account) (now : Q) : Q :=
  (inject_Z (default 0%Z (timestamp a) + default 0%Z (expires_in a)) - now)%Q.

Definition refresh_failed_warning (a : account) : log_record :=
  Warning ("Refresh failed for token with refresh_token starting with '" +:+
           str_take 10 (default "None" (refresh_token a)) +:+
           "'. Will try next token.").

Section Manager.

(** The outside world, by the rank of the consultation: the reading of
    [time.time()], the outcome of [requests.post] for a refresh token,
    and what becomes of a writing of the accounts file. *)
Variable time_time : nat -> Q.
Variable requests_post : nat -> string -> post_outcome.
Variable write_file : nat -> write_outcome.

(** A file that cannot be read gives the empty list, after an error in
    the log. *)
Definition _read_accounts (st : state) : list account * state :=
  match on_disk st with
  | Stored accounts => (accounts, st)
  | Damaged detail =>
      ([], add_log (Error ("Error reading accounts file " +:+ detail)) st)
  end.

(** Only a failure before the file is opened leaves it as it was. *)
Definition _write_accounts (accounts : list account) (st : state) : state :=
  match write_file (calls st) with
  | Written => tick (set_file (Stored accounts) st)
  | Refused detail =>
      add_log (Error ("Error writing to accounts file " +:+ detail)) (tick st)
  | Broken detail remains =>
      add_log (Error ("Error writing to accounts file " +:+ detail))
        (tick (set_file remains st))
  end.

Definition _refresh_token (a : account) (st : state)
  : result (option account) * state :=
  let st := add_log (Info "Access token expired, attempting to refresh...") st in
  match refresh_token a with
  | None | Some "" =>
      (Ok None, add_log (Warning "Account has no refresh token. Cannot refresh.") st)
  | Some token =>
      let outcome := requests_post (calls st) token in
      let st := tick st in
      match outcome with
      | RequestException msg response_text =>
          let st := add_log (Error ("Failed to refresh token: " +:+ msg)) st in
          (Ok None,
           match response_text with
           | Some t => add_log (Error ("Refresh error response: " +:+ t)) st
           | None => st
           end)
      | Responded (Some new_access_token) (Some new_expires_in) =>
          let now := time_time (calls st) in
          let st := tick st in
          (Ok (Some {| access_token := new_access_token;
                       refresh_token := refresh_token a;
                       expires_in := Some new_expires_in;
                       timestamp := Some (py_int now);
                       disabled := disabled a |}),
           add_log (Info "Successfully refreshed access token.") st)
      | Responded _ _ => (Raise KeyError, st)
      end
  end.

(** The [for i in range(num_accounts)] loop of [get_token], over the
    values of [i] still to come, and what follows the loop. *)
Fixpoint get_token_loop (accounts : list account) (range : list nat) (st : state)
  : result (option account) * state :=
  match range with
  | [] =>
      (Ok None,
       add_log (Error "No valid and refreshable tokens found in the accounts file.") st)
  | i :: range' =>
      let num_accounts := length accounts in
      let index := (current_token_index st + i) mod num_accounts in
      match accounts !! index with
      | None => (Raise IndexError, st)
      | Some a =>
          if disabled a then get_token_loop accounts range' st
          else
            let now := time_time (calls st) in
            let st := tick st in
            if is_expired a now then
              match _refresh_token a st with
              | (Ok (Some refreshed_account), st) =>
                  let st := _write_accounts (<[index := refreshed_account]> accounts) st in
                  (Ok (Some refreshed_account),
                   set_index ((index + 1) mod num_accounts) st)
              | (Ok None, st) =>
                  get_token_loop accounts range' (add_log (refresh_failed_warning a) st)
              | (Raise e, st) => (Raise e, st)
              end
            else (Ok (Some a), set_index ((index + 1) mod num_accounts) st)
      end
  end.

Definition get_token (st : state) : result (option account) * state :=
  let '(accounts, st) := _read_accounts st in
  match accounts with
  | [] => (Ok None, st)
  | _ => get_token_loop accounts (seq 0 (length accounts)) st
  end.

(** [n] calls of [get_token] in a row: what each returned, and the state
    after the last. *)
Fixpoint get_tokens (n : nat) (st : state)
  : list (result (option account)) * state :=
  match n with
  | O => ([], st)
  | S n' =>
      let '(r, st') := get_token st in
      let '(rs, st'') := get_tokens n' st' in
      (r :: rs, st'')
  end.

(** *** Properties *)

Lemma is_expired_spec (a : account) (now : Q) :
  is_expired a now = true <->
  (inject_Z (default 0%Z (timestamp a) + default 0%Z (expires_in a) - 60) < now)%Q.
Proof.
  unfold is_expired. rewrite Qlt_alt.
  destruct (Qcompare _ now); split; congruence.
Qed.

Lemma remaining_alt (a : account) (now : Q) :
  (inject_Z (default 0%Z (timestamp a) + default 0%Z (expires_in a) - 60)
   == remaining a now + now - 60)%Q.
Proof.
  unfold remaining, Z.sub. rewrite inject_Z_plus, inject_Z_opp.
  change (inject_Z 60) with 60%Q. lra.
Qed.

Lemma expired_below_margin (a : account) (now : Q) :
  (remaining a now < 60)%Q -> is_expired a now = true.
Proof.
  intros H. apply is_expired_spec. rewrite (remaining_alt a now). lra.
Qed.

Lemma valid_from_margin (a : account) (now : Q) :
  (60 <= remaining a now)%Q -> is_expired a now = false.
Proof.
  intros H. destruct (is_expired a now) eqn:E; [|reflexivity].
  apply is_expired_spec in E. rewrite (remaining_alt a now) in E. lra.
Qed.

(** A candidate the loop reaches, when it is enabled and not expired, is
    returned at once: one clock reading, no refresh, nothing logged. *)
Lemma get_token_loop_valid (accounts : list account) (i : nat)
    (range : list nat) (st : state) (a : account) :
  accounts !! ((current_token_index st + i) mod length accounts) = Some a ->
  disabled a = false ->
  is_expired a (time_time (calls st)) = false ->
  get_token_loop accounts (i :: range) st =
  (Ok (Some a),
   set_index (((current_token_index st + i) mod length accounts + 1)
              mod length accounts) (tick st)).
Proof. intros Ha Hd He. cbn [get_token_loop]. by rewrite Ha, Hd, He. Qed.

(** A pool that is not empty is read as it is, with nothing logged, and
    the loop runs over it. *)
Lemma get_token_pool (st : state) :
  accounts_file st <> [] ->
  get_token st =
  get_token_loop (accounts_file st) (seq 0 (length (accounts_file st))) st.
Proof.
  unfold get_token, _read_accounts, accounts_file.
  destruct (on_disk st) as [[|a0 l]|detail]; done.
Qed.

(** Without a pool the call returns [None] at once; only a damaged file
    leaves a record in the log. *)
Lemma get_token_no_pool (st : state) :
  accounts_file st = [] ->
  get_token st =
  (Ok None,
   match on_disk st with
   | Stored _ => st
   | Damaged detail => add_log (Error ("Error reading accounts file " +:+ detail)) st
   end).
Proof.
  unfold get_token, _read_accounts, accounts_file.
  destruct (on_disk st) as [[|a0 l]|detail]; done.
Qed.

Lemma get_token_valid (st : state) (a : account) :
  accounts_file st !! (current_token_index st mod length (accounts_file st)) = Some a ->
  disabled a = false ->
  is_expired a (time_time (calls st)) = false ->
  get_token st =
  (Ok (Some a),
   set_index ((current_token_index st mod length (accounts_file st) + 1)
              mod length (accounts_file st)) (tick st)).
Proof.
  intros Ha Hd He.
  rewrite get_token_pool by (intros Hnil; by rewrite Hnil in Ha).
  destruct (accounts_file st) as [|a0 l] eqn:Hfile; [discriminate|].
  change (seq 0 (length (a0 :: l))) with (0 :: seq 1 (length l)).
  rewrite (get_token_loop_valid _ _ _ _ a); rewrite ?Nat.add_0_r; done.
Qed.

(** **** What a refresh and the loop leave alone *)

Definition refresh_notice : log_record :=
  Info "Access token expired, attempting to refresh...".

Lemma refresh_token_frame (a : account) (st st1 : state)
    (r : result (option account)) :
  _refresh_token a st = (r, st1) ->
  on_disk st1 = on_disk st /\
  current_token_index st1 = current_token_index st /\
  (exists l, log st1 = log st ++ refresh_notice :: l) /\
  (forall a', r = Ok (Some a') ->
     disabled a' = disabled a /\ refresh_token a' = refresh_token a).
Proof.
  unfold _refresh_token. cbv zeta.
  destruct (refresh_token a) as [[|c token]|] eqn:Htoken;
    [|destruct (requests_post _ _) as [msg [t|]|[new_at|] [new_ei|]]|];
    intros H; inversion H; subst; clear H; simpl; rewrite <- ?app_assoc; simpl;
    (split; [reflexivity|]); (split; [reflexivity|]); (split; [eauto|]);
    intros a' Ha'; inversion Ha'; subst; simpl; split; (reflexivity || assumption).
Qed.

Lemma refresh_token_calls (a : account) (st st1 : state)
    (r : result (option account)) :
  _refresh_token a st = (r, st1) ->
  calls st <= calls st1 <=
  calls st + match r with Ok (Some _) => 2 | _ => 1 end.
Proof.
  unfold _refresh_token. cbv zeta.
  destruct (refresh_token a) as [[|c token]|];
    [|destruct (requests_post _ _) as [msg [t|]|[new_at|] [new_ei|]]|];
    intros H; inversion H; subst; clear H; simpl; lia.
Qed.

Lemma write_accounts_frame (accounts : list account) (st : state) :
  current_token_index (_write_accounts accounts st) = current_token_index st /\
  calls (_write_accounts accounts st) = S (calls st) /\
  (exists l, log (_write_accounts accounts st) = log st ++ l) /\
  on_disk (_write_accounts accounts st) =
    match write_file (calls st) with
    | Written => Stored accounts
    | Refused _ => on_disk st
    | Broken _ remains => remains
    end.
Proof.
  unfold _write_accounts. destruct (write_file (calls st)); simpl.
  - repeat split. exists []. by rewrite app_nil_r.
  - repeat split. eauto.
  - repeat split. eauto.
Qed.

Lemma get_token_loop_log (accounts : list account) (range : list nat) (st : state) :
  exists l, log (snd (get_token_loop accounts range st)) = log st ++ l.
Proof.
  revert st. induction range as [|i range IH]; intros st; simpl; [eauto|].
  destruct (accounts !! _) as [a|]; simpl; [|exists []; by rewrite app_nil_r].
  destruct (disabled a); [apply IH|].
  destruct (is_expired a _); simpl; [|exists []; by rewrite app_nil_r].
  destruct (_refresh_token a (tick st)) as [[[a'|]|e] st1] eqn:E;
    destruct (refresh_token_frame _ _ _ _ E) as (_ & _ & [l Hl] & _); simpl in Hl.
  - simpl.
    destruct (write_accounts_frame
                (<[(current_token_index st + i) mod length accounts := a']> accounts)
                st1) as (_ & _ & [l' Hl'] & _).
    rewrite Hl', Hl, <- app_assoc. eauto.
  - destruct (IH (add_log (refresh_failed_warning a) st1)) as [l' Hl'].
    rewrite Hl'. simpl. rewrite Hl, <- !app_assoc. eauto.
  - simpl. rewrite Hl. eauto.
Qed.

Lemma get_token_loop_expired (accounts : list account) (i : nat)
    (range : list nat) (st : state) (a : account) :
  accounts !! ((current_token_index st + i) mod length accounts) = Some a ->
  disabled a = false ->
  is_expired a (time_time (calls st)) = true ->
  exists l,
    log (snd (get_token_loop accounts (i :: range) st)) =
    log st ++ refresh_notice :: l.
Proof.
  intros Ha Hd He. cbn [get_token_loop]. rewrite Ha, Hd, He.
  destruct (_refresh_token a (tick st)) as [[[a'|]|e] st1] eqn:E;
    destruct (refresh_token_frame _ _ _ _ E) as (_ & _ & [l Hl] & _); simpl in Hl.
  - destruct (write_accounts_frame
                (<[(current_token_index st + i) mod length accounts := a']> accounts)
                st1) as (_ & _ & [l' Hl'] & _).
    simpl. rewrite Hl', Hl, <- app_assoc. simpl. eauto.
  - destruct (get_token_loop_log accounts range
                (add_log (refresh_failed_warning a) st1)) as [l' Hl'].
    rewrite Hl'. simpl. rewrite Hl, <- !app_assoc. simpl. eauto.
  - simpl. rewrite Hl. eauto.
Qed.

(** C6. The expiry check is [(timestamp + expires_in - 60) < now].  At
    the check of an enabled candidate in the loop of [get_token], a
    credential with 59 seconds left is expired and is sent to refresh (the
    notice of the attempt is the next record in the log); one with 61
    seconds left is valid and is returned as it is, after that one clock
    reading and with no refresh. *)
Theorem expiry_buffer (accounts : list account) (i : nat) (range : list nat)
    (st : state) (a : account) :
  accounts !! ((current_token_index st + i) mod length accounts) = Some a ->
  disabled a = false ->
  let now := time_time (calls st) in
  (is_expired a now = true <->
   (inject_Z (default 0%Z (timestamp a) + default 0%Z (expires_in a) - 60) < now)%Q) /\
  ((remaining a now == 59)%Q ->
   is_expired a now = true /\
   exists l,
     log (snd (get_token_loop accounts (i :: range) st)) =
     log st ++ refresh_notice :: l) /\
  ((remaining a now == 61)%Q ->
   is_expired a now = false /\
   get_token_loop accounts (i :: range) st =
   (Ok (Some a),
    set_index (((current_token_index st + i) mod length accounts + 1)
               mod length accounts) (tick st))).
Proof.
  intros Ha Hd now. split; [apply is_expired_spec|]. split; intros Hrem.
  - assert (He : is_expired a now = true)
      by (apply expired_below_margin; rewrite Hrem; reflexivity).
    split; [exact He|]. by apply (get_token_loop_expired accounts i range st a).
  - assert (He : is_expired a now = false)
      by (apply valid_from_margin; rewrite Hrem; discriminate).
    split; [exact He|]. by apply (get_token_loop_valid accounts i range st a).
Qed.

(** **** Rotation *)

Lemma get_tokens_rotation (k : nat) (st : state) :
  current_token_index st < length (accounts_file st) ->
  (forall a, a ∈ accounts_file st -> disabled a = false) ->
  (forall a j, a ∈ accounts_file st -> j < k ->
     is_expired a (time_time (calls st + j)) = false) ->
  get_tokens k st =
  (map (fun j => Ok (accounts_file st !!
                       ((current_token_index st + j) mod length (accounts_file st))))
       (seq 0 k),
   {| on_disk := on_disk st;
      current_token_index :=
        (current_token_index st + k) mod length (accounts_file st);
      calls := calls st + k;
      log := log st |}).
Proof.
  revert st. induction k as [|k IH]; intros st Hc Hd He.
  - simpl. rewrite !Nat.add_0_r, Nat.mod_small by assumption.
    by destruct st.
  - destruct (lookup_lt_is_Some_2 _ _ Hc) as [a Ha].
    assert (Hin : a ∈ accounts_file st) by (eapply list_elem_of_lookup_2; eauto).
    assert (Hmod : current_token_index st mod length (accounts_file st) =
                   current_token_index st) by (by apply Nat.mod_small).
    assert (Hn : length (accounts_file st) <> 0) by lia.
    cbn [get_tokens].
    rewrite (get_token_valid st a).
    + rewrite Hmod.
      set (st1 := set_index ((current_token_index st + 1) mod length (accounts_file st))
                            (tick st)).
      rewrite (IH st1).
      * simpl. f_equal.
        -- rewrite Nat.add_0_r, Hmod, Ha. f_equal.
           rewrite <- seq_shift, map_map. apply map_ext. intros j.
           rewrite Nat.Div0.add_mod_idemp_l. do 3 f_equal. lia.
        -- f_equal.
           ++ rewrite Nat.Div0.add_mod_idemp_l. f_equal. lia.
           ++ lia.
      * simpl. by apply Nat.mod_upper_bound.
      * exact Hd.
      * intros a' j Ha' Hj. simpl.
        replace (S (calls st + j)) with (calls st + S j) by lia.
        apply He; [assumption|lia].
    + by rewrite Hmod.
    + by apply Hd.
    + specialize (He a 0 Hin). rewrite Nat.add_0_r in He. apply He. lia.
Qed.

Lemma rotation_order (accounts : list account) (c : nat) :
  c < length accounts ->
  map (fun j => accounts !! ((c + j) mod length accounts)) (seq 0 (length accounts)) =
  map Some (drop c accounts ++ take c accounts).
Proof.
  intros Hc. apply list_eq. intros i.
  rewrite !list_lookup_fmap.
  destruct (decide (i < length accounts)) as [Hi|Hi].
  - rewrite lookup_seq_lt by assumption. simpl.
    destruct (decide (i < length accounts - c)) as [Hl|Hl].
    + rewrite lookup_app_l by (rewrite length_drop; lia).
      rewrite lookup_drop, Nat.mod_small by lia.
      destruct (lookup_lt_is_Some_2 accounts (c + i) ltac:(lia)) as [a ->].
      reflexivity.
    + rewrite lookup_app_r by (rewrite length_drop; lia).
      rewrite length_drop, lookup_take_lt by lia.
      replace ((c + i) mod length accounts)
        with (i - (length accounts - c)).
      * destruct (lookup_lt_is_Some_2 accounts (i - (length accounts - c))
                    ltac:(lia)) as [a ->].
        reflexivity.
      * replace (c + i)
          with (i - (length accounts - c) + 1 * length accounts) by lia.
        rewrite Nat.Div0.mod_add, Nat.mod_small by lia. reflexivity.
  - rewrite lookup_seq_ge by lia. simpl.
    rewrite lookup_ge_None_2; [reflexivity|].
    rewrite length_app, length_drop, length_take. lia.
Qed.

(** C2. With every credential of the pool enabled and none expired, and
    the cursor inside the pool, as many calls as there are credentials
    return the credentials from the cursor on, then those before it: each
    once, in rotation order.  Each call returns the credential at the
    cursor and moves the cursor one past it, modulo the size of the pool;
    the file is not touched. *)
Theorem rotation_fairness (st : state) :
  let accounts := accounts_file st in
  let n := length accounts in
  let c := current_token_index st in
  c < n ->
  (forall a, a ∈ accounts -> disabled a = false) ->
  (forall a j, a ∈ accounts -> j < n ->
     is_expired a (time_time (calls st + j)) = false) ->
  get_tokens n st =
    (map (fun a => Ok (Some a)) (drop c accounts ++ take c accounts),
     {| on_disk := on_disk st; current_token_index := c;
        calls := calls st + n; log := log st |}) /\
  drop c accounts ++ take c accounts ≡ₚ accounts /\
  forall k, k < n ->
    let st_k := snd (get_tokens k st) in
    exists a,
      current_token_index st_k = (c + k) mod n /\
      accounts !! ((c + k) mod n) = Some a /\
      get_token st_k =
        (Ok (Some a), set_index (((c + k) mod n + 1) mod n) (tick st_k)).
Proof.
  intros accounts n c Hc Hd He. split; [|split].
  - rewrite (get_tokens_rotation n st Hc Hd He).
    fold accounts n c. f_equal.
    + rewrite <- (map_map Some Ok).
      rewrite <- (rotation_order accounts c Hc), map_map. reflexivity.
    + f_equal. replace (c + n) with (c + 1 * n) by lia.
      rewrite Nat.Div0.mod_add. by apply Nat.mod_small.
  - rewrite Permutation_app_comm. by rewrite take_drop.
  - intros k Hk st_k.
    assert (Hrun := get_tokens_rotation k st Hc Hd
                      (fun a j Ha Hj => He a j Ha ltac:(lia))).
    fold accounts n c in Hrun.
    assert (Hst : st_k = {| on_disk := on_disk st;
                            current_token_index := (c + k) mod n;
                            calls := calls st + k; log := log st |})
      by (unfold st_k; by rewrite Hrun).
    assert (Hlt : (c + k) mod n < n) by (apply Nat.mod_upper_bound; lia).
    destruct (lookup_lt_is_Some_2 accounts _ Hlt) as [a Ha].
    assert (Hfile : accounts_file st_k = accounts) by (by rewrite Hst).
    assert (Hidx : current_token_index st_k = (c + k) mod n) by (by rewrite Hst).
    assert (Hcalls : calls st_k = calls st + k) by (by rewrite Hst).
    exists a. split; [exact Hidx|]. split; [exact Ha|].
    rewrite (get_token_valid st_k a); rewrite ?Hfile, ?Hidx; fold n;
      rewrite ?(Nat.mod_small ((c + k) mod n) n Hlt).
    + reflexivity.
    + exact Ha.
    + apply Hd. eapply list_elem_of_lookup_2; eauto.
    + rewrite Hcalls. apply He; [|assumption].
      eapply list_elem_of_lookup_2; eauto.
Qed.

(** **** Refresh failures *)

(** The refresh of [a] asked for at the consultation [k] comes back
    empty: the record has no refresh token, or the request raises a
    [RequestException]. *)
Definition refresh_refused (a : account) (k : nat) : bool :=
  match refresh_token a with
  | None | Some "" => true
  | Some token =>
      match requests_post k token with
      | RequestException _ _ => true
      | Responded _ _ => false
      end
  end.

Lemma refresh_token_refused (a : account) (st : state) :
  refresh_refused a (calls st) = true ->
  exists st1,
    _refresh_token a st = (Ok None, st1) /\
    on_disk st1 = on_disk st /\
    current_token_index st1 = current_token_index st /\
    calls st <= calls st1 <= S (calls st) /\
    exists l, log st1 = log st ++ refresh_notice :: l.
Proof.
  unfold refresh_refused, _refresh_token. cbv zeta. cbn [calls add_log].
  destruct (refresh_token a) as [[|c token]|].
  - intros _. eexists. split; [reflexivity|]. simpl.
    repeat split; try lia. rewrite <- app_assoc. eauto.
  - destruct (requests_post (calls st) (String c token)) as [msg [t|]|x y];
      [| |discriminate]; intros _; eexists; (split; [reflexivity|]); simpl;
      repeat split; try lia; rewrite <- ?app_assoc; eauto.
  - intros _. eexists. split; [reflexivity|]. simpl.
    repeat split; try lia. rewrite <- app_assoc. eauto.
Qed.

Lemma refresh_token_none (a : account) (st st1 : state) :
  _refresh_token a st = (Ok None, st1) -> refresh_refused a (calls st) = true.
Proof.
  unfold refresh_refused, _refresh_token. cbv zeta. cbn [calls add_log].
  destruct (refresh_token a) as [[|c token]|]; [reflexivity| |reflexivity].
  destruct (requests_post (calls st) (String c token))
    as [msg t|[new_at|] [new_ei|]]; [reflexivity|discriminate..].
Qed.

(** A token response without one of its two keys: the subscript raises
    [KeyError], which [_refresh_token] does not catch. *)
Lemma refresh_token_incomplete (a : account) (st : state) (token : string)
    (new_access_token : option string) (new_expires_in : option Z) :
  refresh_token a = Some token -> token <> "" ->
  requests_post (calls st) token = Responded new_access_token new_expires_in ->
  new_access_token = None \/ new_expires_in = None ->
  _refresh_token a st = (Raise KeyError, tick (add_log refresh_notice st)).
Proof.
  intros Ht Hne Hpost Hmissing. unfold _refresh_token. cbv zeta.
  cbn [calls add_log]. rewrite Ht.
  destruct token as [|c token]; [done|]. rewrite Hpost.
  destruct new_access_token, new_expires_in, Hmissing; done.
Qed.

(** C7 (the code does otherwise). A refresh fails as well when the token
    endpoint answers with a body that lacks ['access_token'] or
    ['expires_in'].  Then [get_token] does not go on to the next
    candidate: the [KeyError] leaves the call after the clock reading and
    the request for the credential at the cursor, whatever the other
    credentials of the pool are.  The file and the cursor are as they
    were, so the following call meets the same credential first. *)
Theorem refresh_failure_not_isolated (st : state) (a : account) (token : string)
    (new_access_token : option string) (new_expires_in : option Z) :
  accounts_file st !! (current_token_index st mod length (accounts_file st)) = Some a ->
  disabled a = false ->
  is_expired a (time_time (calls st)) = true ->
  refresh_token a = Some token -> token <> "" ->
  requests_post (S (calls st)) token = Responded new_access_token new_expires_in ->
  new_access_token = None \/ new_expires_in = None ->
  get_token st =
  (Raise KeyError,
   {| on_disk := on_disk st;
      current_token_index := current_token_index st;
      calls := calls st + 2;
      log := log st ++ [refresh_notice] |}).
Proof.
  intros Ha Hd He Ht Hne Hpost Hmissing.
  rewrite get_token_pool by (intros Hnil; by rewrite Hnil in Ha).
  destruct (accounts_file st) as [|a0 l] eqn:Hfile; [discriminate|].
  change (seq 0 (length (a0 :: l))) with (0 :: seq 1 (length l)).
  cbn [get_token_loop]. rewrite Nat.add_0_r, Ha, Hd, He.
  rewrite (refresh_token_incomplete a (tick st) token _ _ Ht Hne Hpost Hmissing).
  unfold tick, add_log. simpl. do 2 f_equal. lia.
Qed.

(** What the loop leaves when it passes over a candidate. *)
Lemma get_token_loop_refresh_failed (accounts : list account) (i : nat)
    (range : list nat) (st : state) (a : account) :
  accounts !! ((current_token_index st + i) mod length accounts) = Some a ->
  disabled a = false ->
  is_expired a (time_time (calls st)) = true ->
  refresh_refused a (S (calls st)) = true ->
  exists st1,
    on_disk st1 = on_disk st /\
    current_token_index st1 = current_token_index st /\
    S (calls st) <= calls st1 <= S (S (calls st)) /\
    (exists l, log st1 = log st ++ refresh_notice :: l ++ [refresh_failed_warning a]) /\
    get_token_loop accounts (i :: range) st = get_token_loop accounts range st1.
Proof.
  intros Ha Hd He Hr.
  destruct (refresh_token_refused a (tick st) Hr)
    as (st1 & Hrun & Hf & Hi & Hc & l & Hl).
  exists (add_log (refresh_failed_warning a) st1). simpl in *.
  split; [exact Hf|]. split; [exact Hi|]. split; [lia|].
  split; [exists l; by rewrite Hl, <- app_assoc|].
  cbn [get_token_loop]. by rewrite Ha, Hd, He, Hrun.
Qed.

(** X31. A refresh that fails for lack of a refresh token or by a request
    error is isolated: the file and the cursor stay as they are, the
    refused credential costs one clock reading and at most one request,
    and the loop goes on with the candidates still to come, so that the
    next one in rotation order, when it is enabled and valid at its own
    clock reading, is the credential returned. *)
Theorem failed_refresh_moves_on (accounts : list account) (i : nat)
    (range : list nat) (st : state) (a : account) :
  accounts !! ((current_token_index st + i) mod length accounts) = Some a ->
  disabled a = false ->
  is_expired a (time_time (calls st)) = true ->
  refresh_refused a (S (calls st)) = true ->
  exists st1,
    on_disk st1 = on_disk st /\
    current_token_index st1 = current_token_index st /\
    S (calls st) <= calls st1 <= S (S (calls st)) /\
    (exists l, log st1 = log st ++ refresh_notice :: l ++ [refresh_failed_warning a]) /\
    get_token_loop accounts (i :: range) st = get_token_loop accounts range st1 /\
    forall j range' b,
      range = j :: range' ->
      accounts !! ((current_token_index st + j) mod length accounts) = Some b ->
      disabled b = false ->
      is_expired b (time_time (calls st1)) = false ->
      get_token_loop accounts (i :: range) st =
      (Ok (Some b),
       set_index (((current_token_index st + j) mod length accounts + 1)
                  mod length accounts) (tick st1)).
Proof.
  intros Ha Hd He Hr.
  destruct (get_token_loop_refresh_failed accounts i range st a Ha Hd He Hr)
    as (st1 & Hf & Hi & Hc & Hl & Hrun).
  exists st1. repeat (split; [assumption|]).
  intros j range' b -> Hb Hdb Heb. rewrite Hrun.
  rewrite (get_token_loop_valid accounts j range' st1 b); rewrite ?Hi; done.
Qed.

Lemma get_token_loop_none (accounts : list account) (range : list nat)
    (st st' : state) :
  get_token_loop accounts range st = (Ok None, st') ->
  on_disk st' = on_disk st /\
  current_token_index st' = current_token_index st /\
  calls st <= calls st' /\
  forall i, i ∈ range ->
    exists a,
      accounts !! ((current_token_index st + i) mod length accounts) = Some a /\
      (disabled a = true \/
       exists k, calls st <= k < calls st' /\
                 is_expired a (time_time k) = true /\
                 refresh_refused a (S k) = true).
Proof.
  revert st. induction range as [|i range IH]; intros st; cbn [get_token_loop].
  - intros [= <-]. simpl. repeat split; [lia|].
    intros i Hi. by apply elem_of_nil in Hi.
  - destruct (accounts !! _) as [a|] eqn:Ha; [|discriminate].
    destruct (disabled a) eqn:Hd.
    + intros Hrun. destruct (IH _ Hrun) as (Hf & Hi & Hc & Hall).
      repeat (split; [assumption|]).
      intros j Hj. apply elem_of_cons in Hj as [->|Hj]; [|by apply Hall].
      exists a. split; [exact Ha|by left].
    + destruct (is_expired a _) eqn:He; [|discriminate].
      destruct (_refresh_token a (tick st)) as [[[a'|]|e] st1] eqn:E;
        [discriminate| |discriminate].
      destruct (refresh_token_frame _ _ _ _ E) as (Hf1 & Hi1 & _).
      pose proof (refresh_token_calls _ _ _ _ E) as Hc1.
      apply refresh_token_none in E.
      simpl in Hf1, Hi1, Hc1, E.
      intros Hrun. destruct (IH _ Hrun) as (Hf & Hi & Hc & Hall).
      simpl in Hf, Hi, Hc, Hall.
      split; [by rewrite Hf|]. split; [by rewrite Hi|]. split; [lia|].
      intros j Hj. apply elem_of_cons in Hj as [->|Hj].
      * exists a. split; [exact Ha|]. right. exists (calls st).
        split; [lia|]. by split.
      * rewrite <- Hi1. destruct (Hall j Hj) as (b & Hb & Hcase).
        exists b. split; [exact Hb|].
        destruct Hcase as [Hdb|(k & Hk & Hcase)]; [by left|].
        right. exists k. split; [lia|exact Hcase].
Qed.

(** Every index of the pool is visited by the loop. *)
Lemma rotation_covers (c n j : nat) :
  j < n -> exists i, i ∈ seq 0 n /\ (c + i) mod n = j.
Proof.
  intros Hj. exists ((j + n - c mod n) mod n).
  assert (Hc : c mod n < n) by (apply Nat.mod_upper_bound; lia).
  split.
  - apply elem_of_seq. split; [lia|]. simpl. apply Nat.mod_upper_bound. lia.
  - rewrite Nat.Div0.add_mod_idemp_r, <- Nat.Div0.add_mod_idemp_l.
    replace (c mod n + (j + n - c mod n)) with (j + 1 * n) by lia.
    rewrite Nat.Div0.mod_add. by apply Nat.mod_small.
Qed.

(** X32. [get_token] returns [None] only with the file and the cursor as
    it found them and after every credential of the pool was passed
    over: each one is disabled, or was found expired at a clock reading
    taken during this call and had its refresh refused at the next
    consultation.  A missing, empty or damaged file has no credential to
    pass over. *)
Theorem none_only_after_full_scan (st st' : state) :
  get_token st = (Ok None, st') ->
  on_disk st' = on_disk st /\
  current_token_index st' = current_token_index st /\
  forall a, a ∈ accounts_file st ->
    disabled a = true \/
    exists k, calls st <= k < calls st' /\
              is_expired a (time_time k) = true /\
              refresh_refused a (S k) = true.
Proof.
  destruct (accounts_file st) as [|a0 l0] eqn:Hfile.
  - rewrite get_token_no_pool by assumption. intros [= <-].
    split; [by destruct (on_disk st) eqn:E|].
    split; [by destruct (on_disk st) eqn:E|].
    intros a Ha. by apply elem_of_nil in Ha.
  - rewrite get_token_pool by (by rewrite Hfile). rewrite Hfile.
    intros Hrun. apply get_token_loop_none in Hrun.
    destruct Hrun as (Hf & Hi & _ & Hall).
    split; [exact Hf|]. split; [exact Hi|].
    intros a Ha. apply list_elem_of_lookup_1 in Ha as [j Hj].
    destruct (rotation_covers (current_token_index st) (length (a0 :: l0)) j)
      as (i & Hin & Hmod); [by eapply lookup_lt_Some|].
    destruct (Hall i Hin) as (a1 & Ha1 & Hcase).
    rewrite Hmod, Hj in Ha1. by injection Ha1 as <-.
Qed.


(** **** Further properties of the manager *)

(** X14. A credential is expired exactly when it has less than 60 seconds
    left: with exactly 60 it still counts as valid.  Once expired at one
    clock reading it is expired at every later one. *)
Theorem expiry_threshold (a : account) (now later : Q) :
  (is_expired a now = true <-> (remaining a now < 60)%Q) /\
  ((now <= later)%Q -> is_expired a now = true -> is_expired a later = true).
Proof.
  assert (Hiff : forall t, is_expired a t = true <-> (remaining a t < 60)%Q).
  { intros t. split; [|apply expired_below_margin].
    intros He. destruct (Qlt_le_dec (remaining a t) 60) as [Hlt|Hge]; [done|].
    apply valid_from_margin in Hge. congruence. }
  split; [apply Hiff|].
  intros Hle He. apply Hiff. apply Hiff in He.
  unfold remaining in *. lra.
Qed.

Lemma py_int_above (x : Q) : (x < inject_Z (py_int x) + 1)%Q.
Proof.
  destruct x as [n d]. unfold py_int. simpl Qnum. simpl Qden.
  assert (Hqr := Z.quot_rem' n (Zpos d)).
  assert (Hr : (Z.rem n (Zpos d) < Zpos d)%Z).
  { destruct (Z_le_gt_dec 0 n) as [Hn|Hn].
    - apply Z.rem_bound_pos_pos; lia.
    - pose proof (Z.rem_bound_pos_neg n (Zpos d)). lia. }
  change 1%Q with (inject_Z 1). rewrite <- inject_Z_plus.
  unfold Qlt, inject_Z. simpl Qnum. simpl Qden. nia.
Qed.

(** X16. A refresh that succeeds with a lifetime of at least 61 seconds
    gives back a credential that is not expired at the clock reading it
    was stamped with. *)
Theorem refreshed_is_valid (a a' : account) (st st1 : state) (lifetime : Z) :
  _refresh_token a st = (Ok (Some a'), st1) ->
  expires_in a' = Some lifetime -> (61 <= lifetime)%Z ->
  timestamp a' = Some (py_int (time_time (S (calls st)))) /\
  is_expired a' (time_time (S (calls st))) = false.
Proof.
  unfold _refresh_token. cbv zeta.
  destruct (refresh_token a) as [[|c token]|];
    [discriminate| |discriminate].
  destruct (requests_post _ _) as [msg [t|]|[new_at|] [new_ei|]];
    try discriminate.
  intros H. inversion H; subst; clear H. simpl.
  intros [= ->] Hlife. split; [reflexivity|].
  apply valid_from_margin. unfold remaining. simpl.
  pose proof (py_int_above (time_time (S (calls st)))) as Hq.
  rewrite inject_Z_plus.
  assert (Hl : (61 <= inject_Z lifetime)%Q).
  { change 61%Q with (inject_Z 61). by rewrite <- Zle_Qle. }
  lra.
Qed.

(** A refresh succeeds only on an answer with both keys, and gives the
    record with the two new values and the stamp of the next clock
    reading; every other field is kept. *)
Lemma refresh_token_success (a a' : account) (st st1 : state) :
  _refresh_token a st = (Ok (Some a'), st1) ->
  exists token new_access_token new_expires_in,
    refresh_token a = Some token /\
    requests_post (calls st) token =
      Responded (Some new_access_token) (Some new_expires_in) /\
    a' = {| access_token := new_access_token;
            refresh_token := Some token;
            expires_in := Some new_expires_in;
            timestamp := Some (py_int (time_time (S (calls st))));
            disabled := disabled a |} /\
    calls st1 = S (S (calls st)).
Proof.
  unfold _refresh_token. cbv zeta. cbn [calls add_log tick].
  destruct (refresh_token a) as [[|c token]|] eqn:Ht;
    [discriminate| |discriminate].
  destruct (requests_post (calls st) (String c token))
    as [msg [t|]|[new_at|] [new_ei|]] eqn:Hpost; try discriminate.
  intros H. inversion H; subst; clear H.
  by exists (String c token), new_at, new_ei.
Qed.

(** The credential that comes out of the loop, against the record of the
    pool it comes from and the consultation [k] at which that record was
    checked. *)
Definition drawn_from (a0 a : account) (k : nat) : Prop :=
  is_expired a0 (time_time k) = false /\ a = a0 \/
  is_expired a0 (time_time k) = true /\
  exists token new_access_token new_expires_in,
    refresh_token a0 = Some token /\
    requests_post (S k) token =
      Responded (Some new_access_token) (Some new_expires_in) /\
    a = {| access_token := new_access_token;
           refresh_token := Some token;
           expires_in := Some new_expires_in;
           timestamp := Some (py_int (time_time (S (S k))));
           disabled := false |}.

Lemma get_token_loop_calls (accounts : list account) (range : list nat)
    (st : state) :
  calls st <= calls (snd (get_token_loop accounts range st)) <=
  calls st + 2 * length range + 2.
Proof.
  revert st. induction range as [|i range IH]; intros st; cbn [get_token_loop].
  - simpl. lia.
  - destruct (accounts !! _) as [a|]; [|simpl; lia].
    destruct (disabled a); [specialize (IH st); simpl length; lia|].
    destruct (is_expired a _); [|simpl; lia].
    destruct (_refresh_token a (tick st)) as [[[a'|]|e] st1] eqn:E;
      apply refresh_token_calls in E; simpl in E.
    + simpl.
      destruct (write_accounts_frame
                  (<[(current_token_index st + i) mod length accounts := a']> accounts)
                  st1) as (_ & -> & _).
      lia.
    + specialize (IH (add_log (refresh_failed_warning a) st1)).
      simpl in IH. simpl length. lia.
    + simpl. lia.
Qed.

Lemma get_token_loop_returned (accounts : list account) (range : list nat)
    (st st' : state) (r : result (option account)) :
  get_token_loop accounts range st = (r, st') ->
  match r with
  | Ok (Some a) =>
      exists index a0 k,
        accounts !! index = Some a0 /\
        disabled a0 = false /\
        current_token_index st' = (index + 1) mod length accounts /\
        calls st <= k < calls st' /\
        drawn_from a0 a k
  | _ => current_token_index st' = current_token_index st
  end.
Proof.
  revert st. induction range as [|i range IH]; intros st; cbn [get_token_loop].
  - intros H. by inversion H; subst.
  - destruct (accounts !! _) as [a0|] eqn:Ha; [|intros H; by inversion H; subst].
    destruct (disabled a0) eqn:Hd; [apply IH|].
    destruct (is_expired a0 _) eqn:He.
    + destruct (_refresh_token a0 (tick st)) as [[[a'|]|e] st1] eqn:E.
      * clear IH. intros H. inversion H; subst. clear H.
        destruct (refresh_token_frame _ _ _ _ E) as (_ & Hi & _).
        destruct (refresh_token_success _ _ _ _ E)
          as (token & new_at & new_ei & Ht & Hpost & -> & Hc).
        simpl in Hi, Hpost, Hc.
        destruct (write_accounts_frame
                    (<[(current_token_index st + i) mod length accounts :=
                         {| access_token := new_at; refresh_token := Some token;
                            expires_in := Some new_ei;
                            timestamp := Some (py_int (time_time (S (calls (tick st)))));
                            disabled := disabled a0 |}]> accounts)
                    st1) as (_ & Hcw & _).
        exists ((current_token_index st + i) mod length accounts), a0, (calls st).
        split; [exact Ha|]. split; [exact Hd|]. split; [reflexivity|].
        split; [cbn [calls set_index]; rewrite Hcw; lia|].
        right. split; [exact He|]. exists token, new_at, new_ei.
        rewrite Hd. by repeat split.
      * destruct (refresh_token_frame _ _ _ _ E) as (_ & Hi & _).
        apply refresh_token_calls in E. simpl in Hi, E.
        intros H. apply IH in H. destruct r as [[a|]|e]; simpl in H;
          [|congruence|congruence].
        destruct H as (index & a1 & k & H1 & H2 & H3 & H4 & H5).
        exists index, a1, k. repeat (split; [assumption|]).
        split; [lia|exact H5].
      * destruct (refresh_token_frame _ _ _ _ E) as (_ & Hi & _). simpl in Hi.
        intros H. by inversion H; subst.
    + intros H. inversion H; subst. clear H.
      exists ((current_token_index st + i) mod length accounts), a0, (calls st).
      split; [exact Ha|]. split; [exact Hd|]. split; [reflexivity|].
      split; [simpl; lia|]. left. by split.
Qed.

(** X17. A credential that [get_token] returns comes from an enabled
    record of the pool, and the cursor is left one past the index of that
    record, modulo the size of the pool.  It is that record itself, found
    valid at a clock reading of this call, or, the record being found
    expired, its refreshed form: the access token and the lifetime of the
    endpoint's answer, the stamp of the clock reading that follows the
    answer, and the refresh token of the record. *)
Theorem returned_credential (st st' : state) (a : account) :
  get_token st = (Ok (Some a), st') ->
  exists index a0 k,
    accounts_file st !! index = Some a0 /\
    disabled a0 = false /\
    current_token_index st' = (index + 1) mod length (accounts_file st) /\
    calls st <= k < calls st' /\
    drawn_from a0 a k.
Proof.
  destruct (accounts_file st) as [|a0 l0] eqn:Hfile.
  - by rewrite get_token_no_pool.
  - rewrite get_token_pool by (by rewrite Hfile). rewrite Hfile.
    intros H. by apply get_token_loop_returned in H.
Qed.

(** X18. The cursor moves only when a credential is returned, and then to
    an index of the pool that the call read: a call that returns [None]
    or raises leaves the cursor where it was, so a cursor inside the pool
    stays inside it. *)
Theorem cursor_stays_in_range (st st' : state) (r : result (option account)) :
  get_token st = (r, st') ->
  ((forall a, r <> Ok (Some a)) ->
   current_token_index st' = current_token_index st) /\
  (forall a, r = Ok (Some a) ->
     current_token_index st' < length (accounts_file st)) /\
  (current_token_index st < length (accounts_file st) ->
   current_token_index st' < length (accounts_file st)).
Proof.
  intros H.
  assert (Hcases :
    match r with
    | Ok (Some _) => current_token_index st' < length (accounts_file st)
    | _ => current_token_index st' = current_token_index st
    end).
  { destruct (accounts_file st) as [|a0 l0] eqn:Hfile.
    - rewrite get_token_no_pool in H by assumption.
      inversion H; subst. by destruct (on_disk st).
    - rewrite get_token_pool in H by (by rewrite Hfile). rewrite Hfile in H.
      apply get_token_loop_returned in H.
      destruct r as [[a|]|e]; try assumption.
      destruct H as (index & a1 & k & _ & _ & -> & _).
      apply Nat.mod_upper_bound. simpl. lia. }
  split; [|split].
  - intros Hno. destruct r as [[a|]|e]; [by destruct (Hno a)|done|done].
  - by intros a ->.
  - intros Hc. destruct r as [[a|]|e]; [assumption|by rewrite Hcases..].
Qed.

(** X15. A successful refresh of the candidate at the cursor is returned
    and moves the cursor one past it, whatever becomes of the writing of
    the file.  When the list is written, the refreshed record replaces
    the old one at its index and every other record stays.  When the
    writing is refused before the file is opened, the file is as it was,
    with the old record.  When it breaks after the file was opened for
    writing, the file is what the failure left of it, and the pool can
    be lost although a credential was returned. *)
Theorem refresh_persisted (st st1 : state) (a a' : account) :
  let index := current_token_index st mod length (accounts_file st) in
  let run := get_token st in
  accounts_file st !! index = Some a ->
  disabled a = false ->
  is_expired a (time_time (calls st)) = true ->
  _refresh_token a (tick st) = (Ok (Some a'), st1) ->
  fst run = Ok (Some a') /\
  current_token_index (snd run) = (index + 1) mod length (accounts_file st) /\
  match write_file (calls st1) with
  | Written =>
      on_disk (snd run) = Stored (<[index := a']> (accounts_file st)) /\
      accounts_file (snd run) !! index = Some a' /\
      forall j, j <> index -> accounts_file (snd run) !! j = accounts_file st !! j
  | Refused _ => on_disk (snd run) = on_disk st
  | Broken _ remains =>
      on_disk (snd run) = remains /\
      forall detail, remains = Damaged detail ->
        accounts_file (snd run) = [] /\
        exists st2, get_token (snd run) = (Ok None, st2)
  end.
Proof.
  intros index run Ha Hd He Hr. subst run index.
  destruct (refresh_token_frame _ _ _ _ Hr) as (Hf & _). simpl in Hf.
  rewrite get_token_pool by (intros Hnil; by rewrite Hnil in Ha).
  destruct (accounts_file st) as [|a0 l0] eqn:Hfile; [discriminate|].
  change (seq 0 (length (a0 :: l0))) with (0 :: seq 1 (length l0)).
  cbn [get_token_loop]. rewrite Nat.add_0_r, Ha, Hd, He, Hr.
  cbn [fst snd]. split; [reflexivity|]. split; [reflexivity|].
  unfold _write_accounts.
  destruct (write_file (calls st1)) as [|detail|detail remains]; simpl.
  - split; [reflexivity|]. unfold accounts_file. simpl. split.
    + apply list_lookup_insert_eq. by eapply lookup_lt_Some.
    + intros j Hj. by apply list_lookup_insert_ne.
  - exact Hf.
  - split; [reflexivity|]. intros d ->.
    split; [reflexivity|]. eexists. by rewrite get_token_no_pool.
Qed.

Definition exhausted_error : log_record :=
  Error "No valid and refreshable tokens found in the accounts file.".

Lemma get_token_loop_all_disabled (accounts : list account) (range : list nat)
    (st : state) :
  accounts <> [] ->
  Forall (fun a => disabled a = true) accounts ->
  get_token_loop accounts range st = (Ok None, add_log exhausted_error st).
Proof.
  intros Hne Hall. induction range as [|i range IH]; [reflexivity|].
  cbn [get_token_loop].
  destruct (lookup_lt_is_Some_2 accounts
              ((current_token_index st + i) mod length accounts)) as [a Ha].
  { apply Nat.mod_upper_bound. destruct accounts; [done|simpl; lia]. }
  rewrite Ha.
  rewrite (proj1 (Forall_forall _ _) Hall a)
    by (eapply list_elem_of_lookup_2; eauto).
  exact IH.
Qed.

(** X19. When every credential of a non-empty pool is disabled, the call
    returns [None] without reading the clock, asking the token endpoint
    or writing the file: only the error is logged. *)
Theorem all_disabled_no_contact (st : state) :
  accounts_file st <> [] ->
  Forall (fun a => disabled a = true) (accounts_file st) ->
  get_token st = (Ok None, add_log exhausted_error st).
Proof.
  intros Hne Hall. rewrite get_token_pool by assumption.
  by apply get_token_loop_all_disabled.
Qed.

(** X20. After reading the accounts file, one call reads the clock, asks
    the token endpoint and writes the file at most twice per credential
    of the pool plus twice, all three counted together, and never takes a
    consultation back. *)
Theorem consultations_bounded (st : state) :
  calls st <= calls (snd (get_token st)) <=
  calls st + 2 * length (accounts_file st) + 2.
Proof.
  destruct (accounts_file st) as [|a0 l0] eqn:Hfile.
  - rewrite get_token_no_pool by assumption. destruct (on_disk st); simpl; lia.
  - rewrite get_token_pool by (by rewrite Hfile). rewrite Hfile.
    pose proof (get_token_loop_calls (a0 :: l0) (seq 0 (length (a0 :: l0))) st) as H.
    rewrite length_seq in H. exact H.
Qed.


End Manager.

(** *** A concrete pool and world *)

(** The clock starts at 1000 and gains a second at each consultation. *)
Definition sample_clock (k : nat) : Q := inject_Z (1000 + Z.of_nat k).

(** The token endpoint accepts the refresh token "r-ok" and fails for
    every other one. *)
Definition sample_post (k : nat) (token : string) : post_outcome :=
  if String.eqb token "r-ok"
  then Responded (Some "renewed") (Some 3600%Z)
  else RequestException "503 Server Error" (Some "unavailable").

Definition sample_write (k : nat) : write_outcome := Written.

Definition credential (token refresh : string) (issued lifetime : Z) : account :=
  {| access_token := token; refresh_token := Some refresh;
     expires_in := Some lifetime; timestamp := Some issued; disabled := false |}.

Definition pool_state (accounts : list account) (cursor : nat) : state :=
  {| on_disk := Stored accounts; current_token_index := cursor;
     calls := 0; log := [] |}.

Definition fresh_pool : list account :=
  [credential "t0" "r0" 900 3600; credential "t1" "r1" 950 3600;
   credential "t2" "r2" 990 3600].

Lemma rotation_fairness_witness :
  (1 < length fresh_pool /\
   (forall a, a ∈ fresh_pool -> disabled a = false) /\
   (forall a j, a ∈ fresh_pool -> j < length fresh_pool ->
      is_expired a (sample_clock (0 + j)) = false)) /\
  get_tokens sample_clock sample_post sample_write 3 (pool_state fresh_pool 1) =
    ([Ok (Some (credential "t1" "r1" 950 3600));
      Ok (Some (credential "t2" "r2" 990 3600));
      Ok (Some (credential "t0" "r0" 900 3600))],
     {| on_disk := Stored fresh_pool; current_token_index := 1;
        calls := 3; log := [] |}).
Proof.
  assert (Hc : 1 < length fresh_pool) by (simpl; lia).
  assert (Hd : forall a, a ∈ fresh_pool -> disabled a = false).
  { intros a Ha. unfold fresh_pool in Ha.
    repeat (apply elem_of_cons in Ha as [->|Ha]); try reflexivity.
    by apply elem_of_nil in Ha. }
  assert (He : forall a j, a ∈ fresh_pool -> j < length fresh_pool ->
                 is_expired a (sample_clock (0 + j)) = false).
  { intros a j Ha Hj. unfold fresh_pool in Ha. simpl in Hj.
    destruct j as [|[|[|j]]]; [| | |lia];
      repeat (apply elem_of_cons in Ha as [->|Ha]); try reflexivity;
      by apply elem_of_nil in Ha. }
  split; [by repeat split|].
  exact (proj1 (rotation_fairness sample_clock sample_post sample_write
                  (pool_state fresh_pool 1) Hc Hd He)).
Defined.

(** At the reading 1000, a credential issued at 0 for 1059 seconds has 59
    seconds left, and one issued for 1061 seconds has 61. *)
Lemma expiry_buffer_witness :
  ((remaining (credential "t" "r-ok" 0 1059) (sample_clock 0) == 59)%Q /\
   is_expired (credential "t" "r-ok" 0 1059) (sample_clock 0) = true /\
   exists l,
     log (snd (get_token sample_clock sample_post sample_write
                 (pool_state [credential "t" "r-ok" 0 1059] 0))) =
     [] ++ refresh_notice :: l) /\
  ((remaining (credential "t" "r-ok" 0 1061) (sample_clock 0) == 61)%Q /\
   is_expired (credential "t" "r-ok" 0 1061) (sample_clock 0) = false /\
   get_token sample_clock sample_post sample_write
     (pool_state [credential "t" "r-ok" 0 1061] 0) =
   (Ok (Some (credential "t" "r-ok" 0 1061)),
    set_index (((0 + 0) mod 1 + 1) mod 1)
      (tick (pool_state [credential "t" "r-ok" 0 1061] 0)))).
Proof.
  split.
  - split; [vm_compute; reflexivity|].
    exact (proj1 (proj2 (expiry_buffer sample_clock sample_post sample_write
                           [credential "t" "r-ok" 0 1059] 0 []
                           (pool_state [credential "t" "r-ok" 0 1059] 0)
                           (credential "t" "r-ok" 0 1059) eq_refl eq_refl))
                 ltac:(vm_compute; reflexivity)).
  - split; [vm_compute; reflexivity|].
    exact (proj2 (proj2 (expiry_buffer sample_clock sample_post sample_write
                           [credential "t" "r-ok" 0 1061] 0 []
                           (pool_state [credential "t" "r-ok" 0 1061] 0)
                           (credential "t" "r-ok" 0 1061) eq_refl eq_refl))
                 ltac:(vm_compute; reflexivity)).
Defined.

(** A pool whose first credential is expired and cannot be refreshed and
    whose second is valid. *)
Definition mixed_pool : list account :=
  [credential "old" "r-gone" 0 500; credential "t1" "r1" 950 3600].

(** A pool whose first credential is expired and has a refresh token the
    endpoint knows, and whose second is valid. *)
Definition stale_pool : list account :=
  [credential "old" "r-ok" 0 500; credential "t1" "r1" 950 3600].

(** A token endpoint that grants every request a new access token and
    leaves ['expires_in'] out of its answer. *)
Definition answer_without_lifetime (k : nat) (token : string) : post_outcome :=
  Responded (Some "renewed") None.

(** A disk that fills up while the list is being written. *)
Definition full_disk (k : nat) : write_outcome :=
  Broken "No space left on device" (Damaged "Expecting value").

Lemma refresh_failure_not_isolated_witness :
  (is_expired (credential "old" "r-ok" 0 500) (sample_clock 0) = true /\
   disabled (credential "t1" "r1" 950 3600) = false /\
   is_expired (credential "t1" "r1" 950 3600) (sample_clock 2) = false) /\
  get_token sample_clock answer_without_lifetime sample_write
    (pool_state stale_pool 0) =
  (Raise KeyError,
   {| on_disk := Stored stale_pool; current_token_index := 0; calls := 2;
      log := [refresh_notice] |}).
Proof.
  split; [repeat split|].
  exact (refresh_failure_not_isolated sample_clock answer_without_lifetime
           sample_write (pool_state stale_pool 0)
           (credential "old" "r-ok" 0 500) "r-ok" (Some "renewed") None
           eq_refl eq_refl eq_refl eq_refl ltac:(discriminate)
           eq_refl (or_intror eq_refl)).
Defined.

Lemma failed_refresh_moves_on_witness :
  (is_expired (credential "old" "r-gone" 0 500) (sample_clock 0) = true /\
   refresh_refused sample_post (credential "old" "r-gone" 0 500) 1 = true) /\
  fst (get_token_loop sample_clock sample_post sample_write mixed_pool [0; 1]
         (pool_state mixed_pool 0)) =
  Ok (Some (credential "t1" "r1" 950 3600)).
Proof.
  split; [split; reflexivity|].
  destruct (failed_refresh_moves_on sample_clock sample_post sample_write
              mixed_pool 0 [1] (pool_state mixed_pool 0)
              (credential "old" "r-gone" 0 500)
              eq_refl eq_refl eq_refl eq_refl)
    as (st1 & _ & Hi & Hc & _ & _ & Hnext).
  rewrite (Hnext 1 [] (credential "t1" "r1" 950 3600) eq_refl eq_refl eq_refl);
    [reflexivity|].
  simpl in Hc.
  assert (Hk : calls st1 = 1 \/ calls st1 = 2) by lia.
  destruct Hk as [-> | ->]; reflexivity.
Defined.

Definition retired (a : account) : account :=
  {| access_token := access_token a; refresh_token := refresh_token a;
     expires_in := expires_in a; timestamp := timestamp a; disabled := true |}.

(** A pool with nothing to give: one disabled credential and one that is
    expired and cannot be refreshed. *)
Definition spent_pool : list account :=
  [retired (credential "t1" "r1" 950 3600); credential "old" "r-gone" 0 500].

Lemma none_only_after_full_scan_witness :
  get_token sample_clock sample_post sample_write (pool_state spent_pool 1) =
    (Ok None,
     {| on_disk := Stored spent_pool; current_token_index := 1; calls := 2;
        log := [refresh_notice;
                Error "Failed to refresh token: 503 Server Error";
                Error "Refresh error response: unavailable";
                refresh_failed_warning (credential "old" "r-gone" 0 500);
                exhausted_error] |}) /\
  forall a, a ∈ spent_pool ->
    disabled a = true \/
    exists k, 0 <= k < 2 /\
              is_expired a (sample_clock k) = true /\
              refresh_refused sample_post a (S k) = true.
Proof.
  assert (H : get_token sample_clock sample_post sample_write
                (pool_state spent_pool 1) =
              (Ok None,
               {| on_disk := Stored spent_pool; current_token_index := 1;
                  calls := 2;
                  log := [refresh_notice;
                          Error "Failed to refresh token: 503 Server Error";
                          Error "Refresh error response: unavailable";
                          refresh_failed_warning (credential "old" "r-gone" 0 500);
                          exhausted_error] |}))
    by (vm_compute; reflexivity).
  split; [exact H|].
  exact (proj2 (proj2 (none_only_after_full_scan sample_clock sample_post
                         sample_write _ _ H))).
Defined.

Lemma refresh_persisted_witness :
  (fst (get_token sample_clock sample_post sample_write (pool_state stale_pool 0)) =
     Ok (Some (credential "renewed" "r-ok" 1002 3600)) /\
   on_disk (snd (get_token sample_clock sample_post sample_write
                   (pool_state stale_pool 0))) =
     Stored [credential "renewed" "r-ok" 1002 3600;
             credential "t1" "r1" 950 3600]) /\
  (fst (get_token sample_clock sample_post full_disk (pool_state stale_pool 0)) =
     Ok (Some (credential "renewed" "r-ok" 1002 3600)) /\
   on_disk (snd (get_token sample_clock sample_post full_disk
                   (pool_state stale_pool 0))) =
     Damaged "Expecting value").
Proof.
  assert (Hr : _refresh_token sample_clock sample_post
                 (credential "old" "r-ok" 0 500) (tick (pool_state stale_pool 0)) =
               (Ok (Some (credential "renewed" "r-ok" 1002 3600)),
                snd (_refresh_token sample_clock sample_post
                       (credential "old" "r-ok" 0 500)
                       (tick (pool_state stale_pool 0)))))
    by (vm_compute; reflexivity).
  split.
  - destruct (refresh_persisted sample_clock sample_post sample_write
                (pool_state stale_pool 0) _ (credential "old" "r-ok" 0 500) _
                eq_refl eq_refl eq_refl Hr) as (Hfst & _ & Hdisk).
    split; [exact Hfst|]. exact (proj1 Hdisk).
  - destruct (refresh_persisted sample_clock sample_post full_disk
                (pool_state stale_pool 0) _ (credential "old" "r-ok" 0 500) _
                eq_refl eq_refl eq_refl Hr) as (Hfst & _ & Hdisk).
    split; [exact Hfst|]. exact (proj1 Hdisk).
Defined.

Lemma refreshed_is_valid_witness :
  _refresh_token sample_clock sample_post (credential "old" "r-ok" 0 500)
    (pool_state [] 0) =
    (Ok (Some (credential "renewed" "r-ok" 1001 3600)),
     snd (_refresh_token sample_clock sample_post (credential "old" "r-ok" 0 500)
            (pool_state [] 0))) /\
  timestamp (credential "renewed" "r-ok" 1001 3600) =
    Some (py_int (sample_clock 1)) /\
  is_expired (credential "renewed" "r-ok" 1001 3600) (sample_clock 1) = false.
Proof.
  assert (H : _refresh_token sample_clock sample_post
                (credential "old" "r-ok" 0 500) (pool_state [] 0) =
              (Ok (Some (credential "renewed" "r-ok" 1001 3600)),
               snd (_refresh_token sample_clock sample_post
                      (credential "old" "r-ok" 0 500) (pool_state [] 0))))
    by (vm_compute; reflexivity).
  split; [exact H|].
  exact (refreshed_is_valid sample_clock sample_post _ _ _ _ 3600%Z H eq_refl
           ltac:(lia)).
Defined.

Lemma stale_pool_run :
  get_token sample_clock sample_post sample_write (pool_state stale_pool 1) =
  (Ok (Some (credential "t1" "r1" 950 3600)),
   {| on_disk := Stored stale_pool; current_token_index := 0; calls := 1;
      log := [] |}).
Proof. vm_compute. reflexivity. Defined.

Lemma stale_pool_refresh :
  get_token sample_clock sample_post sample_write (pool_state stale_pool 0) =
  (Ok (Some (credential "renewed" "r-ok" 1002 3600)),
   snd (get_token sample_clock sample_post sample_write (pool_state stale_pool 0))).
Proof. vm_compute. reflexivity. Defined.

Lemma returned_credential_witness :
  get_token sample_clock sample_post sample_write (pool_state stale_pool 0) =
    (Ok (Some (credential "renewed" "r-ok" 1002 3600)),
     snd (get_token sample_clock sample_post sample_write
            (pool_state stale_pool 0))) /\
  exists index a0 k,
    stale_pool !! index = Some a0 /\
    disabled a0 = false /\
    current_token_index
      (snd (get_token sample_clock sample_post sample_write
              (pool_state stale_pool 0))) = (index + 1) mod length stale_pool /\
    0 <= k < calls (snd (get_token sample_clock sample_post sample_write
                           (pool_state stale_pool 0))) /\
    drawn_from sample_clock sample_post a0
      (credential "renewed" "r-ok" 1002 3600) k.
Proof.
  split; [exact stale_pool_refresh|].
  exact (returned_credential sample_clock sample_post sample_write
           (pool_state stale_pool 0) _ _ stale_pool_refresh).
Defined.

Lemma cursor_stays_in_range_witness :
  get_token sample_clock sample_post sample_write (pool_state stale_pool 1) =
    (Ok (Some (credential "t1" "r1" 950 3600)),
     {| on_disk := Stored stale_pool; current_token_index := 0; calls := 1;
        log := [] |}) /\
  current_token_index
    {| on_disk := Stored stale_pool; current_token_index := 0; calls := 1;
       log := [] |} <
  length (accounts_file (pool_state stale_pool 1)).
Proof.
  split; [exact stale_pool_run|].
  exact (proj1 (proj2 (cursor_stays_in_range sample_clock sample_post sample_write
                         (pool_state stale_pool 1) _ _ stale_pool_run))
               _ eq_refl).
Defined.

Lemma all_disabled_no_contact_witness :
  map retired mixed_pool <> [] /\
  Forall (fun a => disabled a = true) (map retired mixed_pool) /\
  get_token sample_clock sample_post sample_write
    (pool_state (map retired mixed_pool) 1) =
  (Ok None, add_log exhausted_error (pool_state (map retired mixed_pool) 1)).
Proof.
  assert (Hne : map retired mixed_pool <> []) by discriminate.
  assert (Hall : Forall (fun a => disabled a = true) (map retired mixed_pool))
    by (repeat constructor).
  split; [exact Hne|]. split; [exact Hall|].
  exact (all_disabled_no_contact sample_clock sample_post sample_write
           (pool_state (map retired mixed_pool) 1) Hne Hall).
Defined.


End TokenManager.

(** ** utils.py: the request body *)

Module RequestBuilder.

Import Utils TokenManager.

(** A generation parameter: [None], an integer, or a decimal number kept
    as written ([Decimal 95 2] is 0.95).  No arithmetic is done on it. *)
Inductive value : Type :=
| VNone
| VInt (z : Z)
| Decimal (digits : Z) (scale : nat).

(** [CONFIG.defaults] *)
Definition default_top_p : value := Decimal 95 2.
Definition default_top_k : value := VInt 40.
Definition default_temperature : value := Decimal 7 1.
Definition default_max_tokens : value := VInt 2048.

(** [CONFIG.system_instruction] *)
Definition system_instruction : string :=
  "You are a helpful, respectful and honest assistant. " +:+
  "Always answer as helpfully as possible, while being safe. " +:+
  "Your answers should not include any harmful, unethical, racist, sexist, " +:+
  "toxic, dangerous, or illegal content. Please ensure that your responses " +:+
  "are socially unbiased and positive in nature." +:+ LF +:+ LF +:+
  "If a question does not make any sense, or is not factually coherent, " +:+
  "explain why instead of answering something not correct. If you don't know " +:+
  "the answer to a question, please don't share false information.".

(** The ['generationConfig'] dictionary; [topP] is [None] when the key has
    been deleted. *)
Record generation_config : Type := {
  topP : option value;
  topK : value;
  temperature : value;
  candidateCount : Z;
  maxOutputTokens : value;
  stopSequences : list string;
  includeThoughts : bool;
  thinkingBudget : Z
}.

(** [sub in s] *)
Fixpoint contains (sub s : string) : bool :=
  String.prefix sub s ||
  match s with
  | String _ s' => contains sub s'
  | "" => false
  end.

(** [s.endswith(suffix)] *)
Definition ends_with (suffix s : string) : bool :=
  Nat.leb (String.length suffix) (String.length s) &&
  String.eqb (str_drop (String.length s - String.length suffix) s) suffix.

Definition generate_generation_config (parameters : gmap string value)
    (enable_thinking : bool) (actual_model_name : string) : generation_config :=
  {| topP :=
       if enable_thinking && contains "claude" actual_model_name
       then None
       else Some (default default_top_p (parameters !! "top_p"));
     topK := default default_top_k (parameters !! "top_k");
     temperature := default default_temperature (parameters !! "temperature");
     candidateCount := 1;
     maxOutputTokens := default default_max_tokens (parameters !! "max_tokens");
     stopSequences :=
       ["<|user|>"; "<|bot|>"; "<|context_request|>";
        "<|endoftext|>"; "<|end_of_turn|>"];
     includeThoughts := enable_thinking;
     thinkingBudget := if enable_thinking then 1024 else 0 |}.

(** What building a request can fail with. *)
Inductive failure : Type :=
| ConnectionError (msg : string)
| PermissionError (msg : string)
| JSONDecodeError
| Raised (e : exception).

Inductive outcome (A : Type) : Type :=
| Built (a : A)
| Failed (f : failure).
Arguments Built {A} a.
Arguments Failed {A} f.

(** [del d[k]] *)
Definition dict_del (k : string) (kv : list (string * json)) : list (string * json) :=
  List.filter (fun p => negb (String.eqb k (fst p))) kv.

Record function_declaration : Type := {
  fd_name : json;
  fd_description : json;
  fd_parameters : json
}.

(** One converted tool: [{'functionDeclarations': [...]}] *)
Record converted_tool : Type := {
  functionDeclarations : list function_declaration
}.

Definition is_schema_key (x : json) : bool :=
  match x with
  | JStr s => String.eqb s "$schema"
  | _ => false
  end.

(** [if '$schema' in func_params: del func_params['$schema']] *)
Definition strip_schema (func_params : json) : outcome json :=
  match func_params with
  | JObj kv =>
      Built (if dict_has "$schema" kv then JObj (dict_del "$schema" kv) else func_params)
  | JArr l =>
      if existsb is_schema_key l then Failed (Raised TypeError) else Built func_params
  | JStr s =>
      if contains "$schema" s then Failed (Raised TypeError) else Built func_params
  | JNull | JBool _ | JInt _ => Failed (Raised TypeError)
  end.

Definition raise_of {A} (r : result A) : outcome A :=
  match r with
  | Ok a => Built a
  | Raise e => Failed (Raised e)
  end.

Definition and_also {A B} (r : outcome A) (k : A -> outcome B) : outcome B :=
  match r with
  | Built a => k a
  | Failed f => Failed f
  end.

Section Builder.

Variable json_loads : string -> option json.
Variable json_dumps : json -> string.

(** The body of the loop of [convert_openai_tools_to_antigravity]. *)
Definition convert_tool (tool : json) : outcome converted_tool :=
  and_also (raise_of (bind (get tool "function" (JObj [])) (fun f =>
                      get f "parameters" (JObj [])))) (fun parameters =>
  and_also (match json_loads (json_dumps parameters) with
            | Some copy => Built copy
            | None => Failed JSONDecodeError
            end) (fun func_params =>
  and_also (strip_schema func_params) (fun func_params =>
  and_also (raise_of (bind (get tool "function" (JObj [])) (fun f =>
                      get f "name" JNull))) (fun name =>
  and_also (raise_of (bind (get tool "function" (JObj [])) (fun f =>
                      get f "description" JNull))) (fun description =>
  Built {| functionDeclarations :=
             [{| fd_name := name; fd_description := description;
                 fd_parameters := func_params |}] |}))))).

Fixpoint convert_tools (tools : list json) : outcome (list converted_tool) :=
  match tools with
  | [] => Built []
  | tool :: tools' =>
      and_also (convert_tool tool) (fun c =>
      and_also (convert_tools tools') (fun cs => Built (c :: cs)))
  end.

(** [openai_tools] is [None] or a list. *)
Definition convert_openai_tools_to_antigravity (openai_tools : option (list json))
  : outcome (list converted_tool) :=
  match openai_tools with
  | None | Some [] => Built []
  | Some tools => convert_tools tools
  end.

(** The request body; [project] and [sessionId] are [None] when the keys
    are not set. *)
Record request_body : Type := {
  requestId : string;
  contents : list turn;
  systemInstruction : string;
  tools : list converted_tool;
  functionCallingMode : string;
  generationConfig : generation_config;
  model : string;
  userAgent : string;
  project : option string;
  sessionId : option string
}.

(** The thinking switch read off the model name. *)
Definition thinking_enabled (model_name : string) : bool :=
  ends_with "-thinking" model_name ||
  String.eqb model_name "gemini-2.5-pro" ||
  String.prefix "gemini-3-pro-" model_name ||
  (String.eqb model_name "rev19-uic3-1p" ||
   String.eqb model_name "gpt-oss-120b-medium").

(** [model_name[:-9] if model_name.endswith('-thinking') else model_name] *)
Definition actual_name (model_name : string) : string :=
  if ends_with "-thinking" model_name
  then str_take (String.length model_name - 9) model_name
  else model_name.

(** The clock, the token endpoint and the disk of the token manager. *)
Variable time_time : nat -> Q.
Variable requests_post : nat -> string -> post_outcome.
Variable write_file : nat -> write_outcome.

(** [token.get('projectId')] and [token.get('sessionId')]: fields of the
    record that the rotation does not read. *)
Variable projectId : account -> option string.
Variable token_sessionId : account -> option string.

(** [x if x else None] for a string *)
Definition truthy_string (x : option string) : option string :=
  match x with
  | Some "" | None => None
  | Some s => Some s
  end.

Definition generate_request_body (st : state) (uuid4_hex : string)
    (openai_messages : list message) (model_name : string)
    (parameters : gmap string value) (openai_tools : option (list json))
  : outcome request_body * state :=
  let '(acquired, st') := get_token time_time requests_post write_file st in
  (match acquired with
   | Raise e => Failed (Raised e)
   | Ok None =>
       Failed (ConnectionError
                 "No available token. Please run oauth_client.py to get a token.")
   | Ok (Some token) =>
       let enable_thinking := thinking_enabled model_name in
       let actual_model_name := actual_name model_name in
       and_also (raise_of (openai_message_to_antigravity json_loads openai_messages))
         (fun translated =>
       and_also (convert_openai_tools_to_antigravity openai_tools) (fun converted =>
       Built {| requestId := generate_request_id uuid4_hex;
                contents := translated;
                systemInstruction := system_instruction;
                tools := converted;
                functionCallingMode := "ANY";
                generationConfig :=
                  generate_generation_config parameters enable_thinking
                    actual_model_name;
                model := actual_model_name;
                userAgent := "antigravity";
                project := truthy_string (projectId token);
                sessionId := truthy_string (token_sessionId token) |}))
   end, st').

End Builder.

(** *** Properties *)

Lemma length_append (a b : string) :
  String.length (a +:+ b) = String.length a + String.length b.
Proof. induction a as [|c a IH]; [reflexivity|]. rewrite append_cons. simpl. lia. Qed.

Lemma str_take_app (a b : string) : str_take (String.length a) (a +:+ b) = a.
Proof.
  induction a as [|c a IH]; [by destruct b|]. rewrite append_cons. simpl.
  by rewrite IH.
Qed.

Lemma ends_with_app (base suffix : string) :
  ends_with suffix (base +:+ suffix) = true.
Proof.
  unfold ends_with. rewrite length_append.
  replace (String.length base + String.length suffix - String.length suffix)
    with (String.length base) by lia.
  rewrite str_drop_app, String.eqb_refl, andb_true_r.
  apply Nat.leb_le. lia.
Qed.

Lemma actual_name_thinking (base : string) :
  thinking_enabled (base +:+ "-thinking") = true /\
  actual_name (base +:+ "-thinking") = base.
Proof.
  unfold thinking_enabled, actual_name. rewrite ends_with_app. split; [reflexivity|].
  rewrite length_append. change (String.length "-thinking") with 9.
  replace (String.length base + 9 - 9) with (String.length base) by lia.
  apply str_take_app.
Qed.

Section BuilderProperties.

Variable json_loads : string -> option json.
Variable json_dumps : json -> string.
Variable time_time : nat -> Q.
Variable requests_post : nat -> string -> post_outcome.
Variable write_file : nat -> write_outcome.
Variable projectId : account -> option string.
Variable token_sessionId : account -> option string.

(** X22. For a model name ending in "-thinking" the body built names the
    model without the suffix and asks for thoughts with a budget of
    1024. *)
Theorem thinking_suffix_stripped (st st' : state) (uuid4_hex base : string)
    (openai_messages : list message) (parameters : gmap string value)
    (openai_tools : option (list json)) (body : request_body) :
  generate_request_body json_loads json_dumps time_time requests_post
    write_file projectId token_sessionId
    st uuid4_hex openai_messages (base +:+ "-thinking") parameters openai_tools =
    (Built body, st') ->
  model body = base /\
  includeThoughts (generationConfig body) = true /\
  thinkingBudget (generationConfig body) = 1024%Z.
Proof.
  unfold generate_request_body.
  destruct (get_token _ _ _ st) as [[[token|]|e] st1]; try discriminate.
  destruct (actual_name_thinking base) as [-> ->].
  destruct (openai_message_to_antigravity _ _); simpl; [|discriminate].
  destruct (convert_openai_tools_to_antigravity _ _ _); simpl; [|discriminate].
  intros H. inversion H; subst. by repeat split.
Qed.

Lemma dict_del_lookup (k k' : string) (kv : list (string * json)) :
  dict_lookup k' (dict_del k kv) = if String.eqb k k' then None else dict_lookup k' kv.
Proof.
  induction kv as [|[k0 v] kv IH].
  - simpl. by destruct (String.eqb k k').
  - unfold dict_del in *. cbn [List.filter fst].
    destruct (String.eqb k k0) eqn:E0; cbn [negb dict_lookup].
    + apply String.eqb_eq in E0. subst k0. rewrite IH.
      destruct (String.eqb k k') eqn:E; [reflexivity|].
      by rewrite String.eqb_sym, E.
    + rewrite IH. destruct (String.eqb k k') eqn:E; [|reflexivity].
      apply String.eqb_eq in E. subst k'. by rewrite E0.
Qed.

(** X24. A tool whose function carries a dictionary of parameters is
    converted to one function declaration whose parameters have lost the
    key "$schema" and kept every other key with its value; the name and
    the description are passed on, [None] when absent. *)
Theorem schema_stripped (fields f kv : list (string * json)) :
  dict_lookup "function" fields = Some (JObj f) ->
  dict_lookup "parameters" f = Some (JObj kv) ->
  json_loads (json_dumps (JObj kv)) = Some (JObj kv) ->
  exists kv',
    convert_tool json_loads json_dumps (JObj fields) =
      Built {| functionDeclarations :=
                 [{| fd_name := default JNull (dict_lookup "name" f);
                     fd_description := default JNull (dict_lookup "description" f);
                     fd_parameters := JObj kv' |}] |} /\
    dict_lookup "$schema" kv' = None /\
    forall k, k <> "$schema" -> dict_lookup k kv' = dict_lookup k kv.
Proof.
  intros Hf Hp Hcopy. unfold convert_tool. simpl. rewrite Hf. simpl.
  rewrite Hp. simpl. rewrite Hcopy. simpl.
  unfold dict_has. destruct (dict_lookup "$schema" kv) as [v|] eqn:Hs; simpl.
  - exists (dict_del "$schema" kv). split; [reflexivity|]. split.
    + by rewrite dict_del_lookup.
    + intros k Hk. rewrite dict_del_lookup.
      destruct (String.eqb "$schema" k) eqn:E; [|reflexivity].
      apply String.eqb_eq in E. congruence.
  - exists kv. by repeat split.
Qed.



End BuilderProperties.

(** *** A concrete request *)

Definition no_field (a : account) : option string := None.

Definition sample_body : request_body :=
  {| requestId := "req_{uuid.uuid4().hex}";
     contents := sample_upstream;
     systemInstruction := system_instruction;
     tools := [];
     functionCallingMode := "ANY";
     generationConfig := generate_generation_config ∅ true "claude-sonnet";
     model := "claude-sonnet";
     userAgent := "antigravity";
     project := None;
     sessionId := None |}.

Lemma thinking_suffix_stripped_witness :
  generate_request_body loads_subset dumps_subset sample_clock sample_post
    sample_write no_field no_field (pool_state fresh_pool 0) "0f"
    sample_conversation ("claude-sonnet" +:+ "-thinking") ∅ None =
    (Built sample_body,
     snd (get_token sample_clock sample_post sample_write
            (pool_state fresh_pool 0))) /\
  model sample_body = "claude-sonnet" /\
  includeThoughts (generationConfig sample_body) = true /\
  thinkingBudget (generationConfig sample_body) = 1024%Z.
Proof.
  assert (H : generate_request_body loads_subset dumps_subset sample_clock
                sample_post sample_write no_field no_field
                (pool_state fresh_pool 0) "0f" sample_conversation
                ("claude-sonnet" +:+ "-thinking") ∅ None =
              (Built sample_body,
               snd (get_token sample_clock sample_post sample_write
                      (pool_state fresh_pool 0))))
    by (vm_compute; reflexivity).
  split; [exact H|].
  exact (thinking_suffix_stripped loads_subset dumps_subset sample_clock
           sample_post sample_write no_field no_field _ _ _ _ _ _ _ _ H).
Defined.

Definition sample_parameters : list (string * json) :=
  [("$schema", JStr "http://json-schema.org/draft-07/schema#");
   ("type", JStr "object");
   ("properties", JObj [("q", JObj [("type", JStr "string")])])].

Definition sample_function : list (string * json) :=
  [("name", JStr "lookup"); ("parameters", JObj sample_parameters)].

Definition sample_tool : list (string * json) :=
  [("type", JStr "function"); ("function", JObj sample_function)].

Lemma schema_stripped_witness :
  (dict_lookup "function" sample_tool = Some (JObj sample_function) /\
   dict_lookup "parameters" sample_function = Some (JObj sample_parameters) /\
   loads_subset (dumps_subset (JObj sample_parameters)) =
     Some (JObj sample_parameters)) /\
  exists kv',
    convert_tool loads_subset dumps_subset (JObj sample_tool) =
      Built {| functionDeclarations :=
                 [{| fd_name := default JNull (dict_lookup "name" sample_function);
                     fd_description :=
                       default JNull (dict_lookup "description" sample_function);
                     fd_parameters := JObj kv' |}] |} /\
    dict_lookup "$schema" kv' = None /\
    forall k, k <> "$schema" ->
      dict_lookup k kv' = dict_lookup k sample_parameters.
Proof.
  assert (Hcopy : loads_subset (dumps_subset (JObj sample_parameters)) =
                  Some (JObj sample_parameters)) by (vm_compute; reflexivity).
  split; [by repeat split|].
  exact (schema_stripped loads_subset dumps_subset sample_tool sample_function
           sample_parameters eq_refl eq_refl Hcopy).
Defined.



End RequestBuilder.

(** ** api_client.py: the call to the upstream *)

Module Upstream.

Import TokenManager RequestBuilder.

(** What the POST to the upstream comes to: a response with its status,
    its body read as text (for an error status), the lines it streams and
    the transport error that cuts the stream short, if any; or a
    transport error before any response. *)
Inductive http_response : Type :=
| Response (status_code : Z) (error_text : string) (lines : list string)
    (broken : option string)
| RequestError (detail : string).

Section Call.

Variable json_loads : string -> option json.
Variable json_dumps : json -> string.
Variable time_time : nat -> Q.
Variable requests_post : nat -> string -> post_outcome.
Variable write_file : nat -> write_outcome.

(** The upstream, by the rank of the consultation, the [Authorization]
    header and the body sent. *)
Variable http_stream : nat -> string -> request_body -> http_response.

(** What the generator does with the response: the events it yields and
    the exception that ends it, if any. *)
Definition deliver (response : http_response)
  : list ApiClient.event * option failure :=
  match response with
  | RequestError detail =>
      ([], Some (ConnectionError
                   ("An error occurred during the API request: " +:+ detail)))
  | Response status_code error_text lines broken =>
      if negb (status_code =? 200)%Z then
        if (status_code =? 403)%Z
        then ([], Some (PermissionError
                          ("Account lacks permission. Details: " +:+ error_text)))
        else ([], Some (ConnectionError
                          ("API request failed (" +:+ pretty status_code +:+
                           "): " +:+ error_text)))
      else
        let '(out, r) :=
          ApiClient.generate_assistant_response json_loads json_dumps lines in
        (ApiClient.events out,
         match r with
         | Raise e => Some (Raised e)
         | Ok _ =>
             match broken with
             | Some detail =>
                 Some (ConnectionError
                         ("An error occurred during the API request: " +:+ detail))
             | None => None
             end
         end)
  end.

(** [ApiClient.generate_assistant_response], from its first line. *)
Definition generate_assistant_response (st : state) (request : request_body)
  : (list ApiClient.event * option failure) * state :=
  let '(acquired, st') := get_token time_time requests_post write_file st in
  match acquired with
  | Raise e => (([], Some (Raised e)), st')
  | Ok None =>
      (([], Some (ConnectionError
                    "No available token. Please run oauth_client.py to authenticate.")),
       st')
  | Ok (Some token) =>
      (deliver (http_stream (calls st')
                  ("Bearer " +:+ access_token token) request),
       tick st')
  end.

(** *** Properties *)

Variable projectId : account -> option string.
Variable token_sessionId : account -> option string.


End Call.

(** *** A concrete call *)





End Upstream.

(** ** server.py: the key check and the two projections *)

Module Server.

Import RequestBuilder.

(** *** The API key *)

Definition is_blank (c : Ascii.ascii) : bool := Nat.eqb (Ascii.nat_of_ascii c) 32.

Fixpoint has_space (s : string) : bool :=
  match s with
  | String c s' => is_blank c || has_space s'
  | "" => false
  end.

(** [s.split(" ")[-1]]: what follows the last space. *)
Fixpoint last_segment (s : string) : string :=
  match s with
  | String c s' => if is_blank c || has_space s' then last_segment s' else s
  | "" => ""
  end.

(** [verify_api_key] for the configured key and the [authorization]
    header of the request: the detail of the 401 it raises, or [None] when
    the request passes. *)
Definition verify_api_key (api_key : string) (auth_header : option string)
  : option string :=
  if String.eqb api_key "" then None
  else
    match auth_header with
    | None | Some "" => Some "Missing API Key"
    | Some header =>
        if String.eqb (last_segment header) api_key
        then None
        else Some "Invalid API Key"
    end.

(** *** The projections *)

Inductive delta : Type :=
| ContentDelta (content : json)
| ToolCallsDelta (tool_calls : list ApiClient.tool_call)
| EmptyDelta.

Record chunk : Type := {
  chunk_id : string;
  created : Z;
  chunk_model : string;
  chunk_delta : delta;
  finish_reason : option string
}.

(** A line of the streamed answer: a chunk, or the final [[DONE]]. *)
Inductive sse_line : Type :=
| Data (c : chunk)
| Done.

Definition is_batch (ev : ApiClient.event) : bool :=
  match ev with
  | ApiClient.ToolCalls _ => true
  | _ => false
  end.

Definition is_thinking (ev : ApiClient.event) : bool :=
  match ev with
  | ApiClient.Thinking _ => true
  | _ => false
  end.

Section Projections.

(** [str(e)] *)
Variable str : failure -> string.

Variable request_id : string.
Variable created_time : Z.
Variable request_model : string.

Definition make_chunk (d : delta) (reason : option string) : chunk :=
  {| chunk_id := request_id; created := created_time;
     chunk_model := request_model; chunk_delta := d; finish_reason := reason |}.

(** The [async for] loop of [stream_chat_generator]: the lines it yields
    and [has_tool_call] at its end. *)
Fixpoint stream_loop (events : list ApiClient.event) (has_tool_call : bool)
  : list sse_line * bool :=
  match events with
  | [] => ([], has_tool_call)
  | ev :: events' =>
      let '(response_chunk, has_tool_call) :=
        match ev with
        | ApiClient.ToolCalls calls => (make_chunk (ToolCallsDelta calls) None, true)
        | ApiClient.Thinking content | ApiClient.Text content =>
            (make_chunk (ContentDelta content) None, has_tool_call)
        end in
      let '(rest, has_tool_call) := stream_loop events' has_tool_call in
      (Data response_chunk :: rest, has_tool_call)
  end.

(** [stream_chat_generator], given what the [try] block comes to: the
    events the upstream call yields and the exception that ends it, if
    any (an exception while the body is built comes with no event). *)
Definition stream_chat_generator
    (attempt : list ApiClient.event * option failure) : list sse_line :=
  let '(events, raised) := attempt in
  let '(lines, has_tool_call) := stream_loop events false in
  lines ++
  [Data (match raised with
         | None =>
             make_chunk EmptyDelta
               (Some (if has_tool_call then "tool_calls" else "stop"))
         | Some e =>
             make_chunk (ContentDelta (JStr ("Error: " +:+ str e))) (Some "error")
         end);
   Done].

(** The answer of the buffered mode: the message, or the detail of the
    500. *)
Inductive completion : Type :=
| Completion (content : string) (tool_calls : option (list ApiClient.tool_call))
    (reason : string)
| InternalError (detail : string).

(** The [async for] loop of the buffered mode, from [full_content] and
    [tool_calls] so far; a text event whose content is not a string cannot
    be appended. *)
Fixpoint collect (events : list ApiClient.event) (full_content : string)
    (tool_calls : list ApiClient.tool_call)
  : result (string * list ApiClient.tool_call) :=
  match events with
  | [] => Ok (full_content, tool_calls)
  | ApiClient.ToolCalls calls :: events' => collect events' full_content calls
  | ApiClient.Text (JStr s) :: events' =>
      collect events' (full_content +:+ s) tool_calls
  | ApiClient.Text _ :: _ => Raise TypeError
  | ApiClient.Thinking _ :: events' => collect events' full_content tool_calls
  end.

(** The buffered branch of [create_chat_completion], given what the [try]
    block comes to. *)
Definition create_chat_completion
    (attempt : list ApiClient.event * option failure) : completion :=
  let '(events, raised) := attempt in
  match collect events "" [] with
  | Raise e => InternalError (str (Raised e))
  | Ok (full_content, tool_calls) =>
      match raised with
      | Some e => InternalError (str e)
      | None =>
          match tool_calls with
          | [] => Completion full_content None "stop"
          | _ => Completion full_content (Some tool_calls) "tool_calls"
          end
      end
  end.

End Projections.

(** *** Properties *)

Lemma has_space_app (a b : string) :
  has_space (a +:+ b) = has_space a || has_space b.
Proof.
  induction a as [|c a IH]; [reflexivity|].
  rewrite Utils.append_cons. simpl. by rewrite IH, orb_assoc.
Qed.

Lemma last_segment_no_space (s : string) : has_space (last_segment s) = false.
Proof.
  induction s as [|c s IH]; [reflexivity|]. simpl.
  destruct (is_blank c || has_space s) eqn:E; [exact IH|exact E].
Qed.

Lemma last_segment_id (k : string) : has_space k = false -> last_segment k = k.
Proof. destruct k as [|c k]; [reflexivity|]. simpl. by intros ->. Qed.

Lemma last_segment_app (p k : string) :
  has_space k = false -> last_segment (p +:+ " " +:+ k) = k.
Proof.
  intros Hk. induction p as [|c p IH].
  - change ("" +:+ " " +:+ k) with (String (Ascii.ascii_of_nat 32) k). simpl. by apply last_segment_id.
  - rewrite Utils.append_cons. simpl.
    rewrite has_space_app. change (has_space (" " +:+ k)) with (true || has_space k).
    by rewrite orb_true_r, orb_true_r.
Qed.

Lemma last_segment_split (s : string) :
  s = last_segment s \/ exists p, s = p +:+ " " +:+ last_segment s.
Proof.
  induction s as [|c s IH]; [by left|]. simpl.
  destruct (is_blank c || has_space s) eqn:E; [|by left]. right.
  destruct IH as [IH|[p IH]].
  - pose proof (last_segment_no_space s) as Hn. rewrite <- IH in Hn.
    rewrite Hn, orb_false_r in E. apply Nat.eqb_eq in E.
    exists "". rewrite <- IH. change ("" +:+ " " +:+ s) with (String (Ascii.ascii_of_nat 32) s).
    f_equal. rewrite <- (Ascii.ascii_nat_embedding c), E. reflexivity.
  - exists (String c p). by rewrite Utils.append_cons, <- IH.
Qed.

(** X27. With a non-empty key without spaces, a request passes the key
    check exactly when its [authorization] header is the key itself or
    ends with a space followed by the key: whatever comes before the last
    space, the word "Bearer" or any other text, is not looked at. *)
Theorem api_key_accepts (api_key header : string) :
  api_key <> "" -> has_space api_key = false ->
  (verify_api_key api_key (Some header) = None <->
   header = api_key \/ exists scheme, header = scheme +:+ " " +:+ api_key).
Proof.
  intros Hne Hsp. unfold verify_api_key.
  apply String.eqb_neq in Hne. rewrite Hne. split.
  - destruct header as [|c h]; [discriminate|].
    destruct (String.eqb (last_segment (String c h)) api_key) eqn:E;
      [|discriminate].
    intros _. apply String.eqb_eq in E. rewrite <- E.
    destruct (last_segment_split (String c h)) as [H|[p H]]; [by left|].
    right. by exists p.
  - intros [->|[scheme ->]].
    + destruct api_key as [|c k]; [discriminate|].
      by rewrite (last_segment_id _ Hsp), String.eqb_refl.
    + rewrite (last_segment_app _ _ Hsp), String.eqb_refl.
      by destruct scheme.
Qed.

(** X28. A configured key that contains a space can never be presented:
    every request is refused, with or without a header. *)
Theorem spaced_key_locks_out (api_key : string) (auth_header : option string) :
  has_space api_key = true ->
  verify_api_key api_key auth_header <> None.
Proof.
  intros Hsp. unfold verify_api_key.
  destruct (String.eqb api_key "") eqn:E.
  { apply String.eqb_eq in E. subst. discriminate. }
  destruct auth_header as [[|c h]|]; try discriminate.
  destruct (String.eqb (last_segment (String c h)) api_key) eqn:Hk;
    [|discriminate].
  apply String.eqb_eq in Hk.
  pose proof (last_segment_no_space (String c h)) as Hn. congruence.
Qed.

Section ProjectionProperties.

Variable str : failure -> string.
Variable request_id : string.
Variable created_time : Z.
Variable request_model : string.

Lemma collect_filter (events : list ApiClient.event) (full_content : string)
    (tool_calls : list ApiClient.tool_call) :
  collect (List.filter (fun ev => negb (is_thinking ev)) events)
    full_content tool_calls =
  collect events full_content tool_calls.
Proof.
  revert full_content tool_calls.
  induction events as [|ev events IH]; intros full_content tool_calls;
    [reflexivity|].
  destruct ev as [c|c|calls]; simpl.
  - apply IH.
  - destruct c; try reflexivity. apply IH.
  - apply IH.
Qed.

(** X29. The buffered mode leaves the thinking events out: its answer is
    the one it gives for the same events without them. *)
Theorem buffered_ignores_thinking (events : list ApiClient.event)
    (raised : option failure) :
  create_chat_completion str
    (List.filter (fun ev => negb (is_thinking ev)) events, raised) =
  create_chat_completion str (events, raised).
Proof. unfold create_chat_completion. by rewrite collect_filter. Qed.

Lemma stream_loop_spec (events : list ApiClient.event) (has_tool_call : bool) :
  exists lines,
    stream_loop request_id created_time request_model events has_tool_call =
      (lines, has_tool_call || existsb is_batch events) /\
    length lines = length events.
Proof.
  revert has_tool_call. induction events as [|ev events IH]; intros b; simpl.
  - exists []. by rewrite orb_false_r.
  - destruct ev as [c|c|calls]; simpl.
    + destruct (IH b) as (lines & -> & Hl). eexists. split; [reflexivity|].
      simpl. by rewrite Hl.
    + destruct (IH b) as (lines & -> & Hl). eexists. split; [reflexivity|].
      simpl. by rewrite Hl.
    + destruct (IH true) as (lines & -> & Hl). eexists.
      rewrite orb_true_r. split; [reflexivity|]. simpl. by rewrite Hl.
Qed.

Definition non_empty {A} (l : list A) : bool :=
  match l with
  | [] => false
  | _ => true
  end.

Lemma collect_batches (events : list ApiClient.event) (full_content content : string)
    (tool_calls calls : list ApiClient.tool_call) :
  Forall (fun ev => ev <> ApiClient.ToolCalls []) events ->
  collect events full_content tool_calls = Ok (content, calls) ->
  non_empty calls = non_empty tool_calls || existsb is_batch events.
Proof.
  revert full_content tool_calls.
  induction events as [|ev events IH]; intros full_content tool_calls Hall; simpl.
  - intros [= <- <-]. by rewrite orb_false_r.
  - apply Forall_cons in Hall as [Hev Hall].
    destruct ev as [c|c|batch]; simpl.
    + by apply IH.
    + destruct c; try discriminate. by apply IH.
    + intros Hrun. rewrite (IH _ _ Hall Hrun), orb_true_r.
      destruct batch; [done|reflexivity].
Qed.

Variable json_loads : string -> option json.
Variable json_dumps : json -> string.

Lemma yielded_batches_non_empty (lines : list string) :
  Forall (fun ev => ev <> ApiClient.ToolCalls [])
    (ApiClient.events
       (fst (ApiClient.generate_assistant_response json_loads json_dumps lines))).
Proof.
  unfold ApiClient.generate_assistant_response.
  pose proof (ApiClient.process_lines_no_empty_batch json_loads json_dumps lines
                ApiClient.initial) as H.
  induction H as [|x out Hx Hout IH]; [constructor|].
  unfold ApiClient.events in *. destruct x as [ev|msg]; simpl; [|exact IH].
  constructor; [|exact IH]. intros ->. by apply Hx.
Qed.

(** X30. On what the generator yields, the two modes agree on the finish
    reason: when the buffered mode answers with a message, the streamed
    answer ends with one chunk per event, then the chunk holding that same
    finish reason, then the final line. *)
Theorem modes_agree (lines : list string) (content : string)
    (calls : option (list ApiClient.tool_call)) (reason : string) :
  let events :=
    ApiClient.events
      (fst (ApiClient.generate_assistant_response json_loads json_dumps lines)) in
  create_chat_completion str (events, None) = Completion content calls reason ->
  exists chunks,
    stream_chat_generator str request_id created_time request_model (events, None) =
      chunks ++
      [Data (make_chunk request_id created_time request_model EmptyDelta
               (Some reason)); Done] /\
    length chunks = length events.
Proof.
  intros events. unfold create_chat_completion, stream_chat_generator.
  destruct (collect events "" []) as [[full batch]|e] eqn:Hrun; [|discriminate].
  destruct (stream_loop_spec events false) as (chunks & -> & Hlen).
  pose proof (collect_batches events "" full [] batch
                (yielded_batches_non_empty lines) Hrun) as Hb.
  simpl in Hb. simpl. rewrite <- Hb.
  destruct batch as [|call batch]; intros [= <- <- <-];
    exists chunks; by split.
Qed.

End ProjectionProperties.

(** *** Concrete requests *)

Lemma api_key_accepts_witness :
  ("s3cret" <> "" /\ has_space "s3cret" = false) /\
  verify_api_key "s3cret" (Some ("Bearer" +:+ " " +:+ "s3cret")) = None /\
  verify_api_key "s3cret" (Some ("anything at all" +:+ " " +:+ "s3cret")) = None.
Proof.
  assert (Hne : "s3cret" <> "") by discriminate.
  assert (Hsp : has_space "s3cret" = false) by reflexivity.
  split; [by split|]. split.
  - apply (proj2 (api_key_accepts "s3cret" _ Hne Hsp)). right. by exists "Bearer".
  - apply (proj2 (api_key_accepts "s3cret" _ Hne Hsp)). right.
    by exists "anything at all".
Defined.

Lemma spaced_key_locks_out_witness :
  has_space "my key" = true /\
  verify_api_key "my key" (Some "Bearer my key") <> None.
Proof.
  split; [reflexivity|].
  exact (spaced_key_locks_out "my key" (Some "Bearer my key") eq_refl).
Defined.

Definition plain_str (e : failure) : string := "failure".

Definition two_calls_events : list ApiClient.event :=
  ApiClient.events
    (fst (ApiClient.generate_assistant_response loads_subset dumps_subset
            [ApiClient.text_b_line; ApiClient.call_g_line; ApiClient.call_f_line])).

Lemma modes_agree_witness :
  create_chat_completion plain_str (two_calls_events, None) =
    Completion "b"
      (Some [ApiClient.call_of (JStr "c7") "g"; ApiClient.call_of JNull "f"])
      "tool_calls" /\
  exists chunks,
    stream_chat_generator plain_str "chatcmpl-0f" 1000 "gemini-2.5-pro"
      (two_calls_events, None) =
      chunks ++
      [Data (make_chunk "chatcmpl-0f" 1000 "gemini-2.5-pro" EmptyDelta
               (Some "tool_calls")); Done] /\
    length chunks = length two_calls_events.
Proof.
  assert (H : create_chat_completion plain_str (two_calls_events, None) =
              Completion "b"
                (Some [ApiClient.call_of (JStr "c7") "g";
                       ApiClient.call_of JNull "f"])
                "tool_calls") by (vm_compute; reflexivity).
  split; [exact H|].
  exact (modes_agree plain_str "chatcmpl-0f" 1000 "gemini-2.5-pro"
           loads_subset dumps_subset
           [ApiClient.text_b_line; ApiClient.call_g_line; ApiClient.call_f_line]
           _ _ _ H).
Defined.

End Server.
